(** * SEO audit automation (src/seo_audit.py): a shallow embedding

    The browser (Selenium), the file system, pandas, python-slugify and
    urllib are external to the repository.  Their observable behaviour is
    passed in as data (oracles): for every browser call the model is told
    whether it returns or which exception it raises.  The control flow of
    the repository's own code ([sanitize_filename], [process_url],
    [process_csv], [cleanup], [create_zip]) is written out as in the
    source. *)

From Stdlib Require Import String Ascii List Bool Arith Lia Permutation.
Import ListNotations.
Open Scope string_scope.

(** ** Python exceptions *)

(** Exception classes that matter to the handlers of the source:
    [TimeoutException] and [NoSuchElementException] are caught by the
    locator loops, every class but [KeyboardInterrupt] is a subclass of
    [Exception] (so [except Exception] catches it). *)
Inductive exn_kind :=
| TimeoutException
| NoSuchElementException
| OtherException          (* WebDriverException, ValueError, OSError, ... *)
| KeyboardInterrupt.      (* a BaseException, not an Exception *)

Record exn := mkExn { exn_class : exn_kind; exn_str : string }.

(** [isinstance(e, Exception)] *)
Definition is_Exception (e : exn) : bool :=
  match exn_class e with KeyboardInterrupt => false | _ => true end.

(** [except (TimeoutException, NoSuchElementException)] *)
Definition locator_loop_catches (e : exn) : bool :=
  match exn_class e with
  | TimeoutException | NoSuchElementException => true
  | _ => false
  end.

(** ** String helpers (Python [str] methods on ASCII text) *)

Definition char_in (c : ascii) (s : string) : bool :=
  existsb (fun d => Ascii.eqb c d) (list_ascii_of_string s).

(** [s.split(c, 1)] when [c in s]; [None] when [c] does not occur. *)
Fixpoint split_first (c : ascii) (s : string) : option (string * string) :=
  match s with
  | EmptyString => None
  | String d s' =>
      if Ascii.eqb c d then Some (EmptyString, s')
      else match split_first c s' with
           | Some (a, b) => Some (String d a, b)
           | None => None
           end
  end.

(** [s.rpartition(c)] without the separator: the text up to and including
    the last [c], and the text after it. *)
Fixpoint split_last (c : ascii) (s : string) : option (string * string) :=
  match s with
  | EmptyString => None
  | String d s' =>
      match split_last c s' with
      | Some (a, b) => Some (String d a, b)
      | None => if Ascii.eqb c d then Some (String d EmptyString, s') else None
      end
  end.

(** [s.replace(old, new)] for one-character [old] and [new]. *)
Fixpoint replace_char (old new : ascii) (s : string) : string :=
  match s with
  | EmptyString => EmptyString
  | String d s' =>
      String (if Ascii.eqb d old then new else d) (replace_char old new s')
  end.

(** [s.replace(c, "")] *)
Fixpoint remove_char (c : ascii) (s : string) : string :=
  match s with
  | EmptyString => EmptyString
  | String d s' => if Ascii.eqb d c then remove_char c s' else String d (remove_char c s')
  end.

Definition is_ascii_alpha (c : ascii) : bool :=
  let n := nat_of_ascii c in
  (((65 <=? n) && (n <=? 90)) || ((97 <=? n) && (n <=? 122)))%nat.

Definition is_ascii_digit (c : ascii) : bool :=
  let n := nat_of_ascii c in ((48 <=? n) && (n <=? 57))%nat.

Definition lower_char (c : ascii) : ascii :=
  let n := nat_of_ascii c in
  if ((65 <=? n) && (n <=? 90))%nat then ascii_of_nat (n + 32) else c.

(** [s.lower()] *)
Fixpoint lower (s : string) : string :=
  match s with
  | EmptyString => EmptyString
  | String c s' => String (lower_char c) (lower s')
  end.

(** [s[:n]] *)
Definition prefix_upto (n : nat) (s : string) : string := substring 0 n s.

(** ** urllib.parse.urlparse (CPython 3.11) *)

(** [_WHATWG_C0_CONTROL_OR_SPACE]: code points 0..32 *)
Definition c0_control_or_space (c : ascii) : bool := (nat_of_ascii c <=? 32)%nat.

(** [url.lstrip(_WHATWG_C0_CONTROL_OR_SPACE)] *)
Fixpoint lstrip_c0 (s : string) : string :=
  match s with
  | EmptyString => EmptyString
  | String c s' => if c0_control_or_space c then lstrip_c0 s' else s
  end.

Definition TAB : ascii := ascii_of_nat 9%nat.
Definition LF : ascii := ascii_of_nat 10%nat.
Definition CR : ascii := ascii_of_nat 13%nat.

(** [for b in _UNSAFE_URL_BYTES_TO_REMOVE: url = url.replace(b, "")] *)
Definition remove_unsafe_bytes (s : string) : string :=
  remove_char LF (remove_char CR (remove_char TAB s)).

(** [scheme_chars] *)
Definition is_scheme_char (c : ascii) : bool :=
  is_ascii_alpha c || is_ascii_digit c ||
  Ascii.eqb c "+" || Ascii.eqb c "-" || Ascii.eqb c ".".

(** [uses_params] *)
Definition uses_params : list string :=
  [""; "ftp"; "hdl"; "prospero"; "http"; "imap"; "https"; "shttp"; "rtsp";
   "rtspu"; "sip"; "sips"; "mms"; "sftp"; "tel"].

Definition netloc_delim (c : ascii) : bool :=
  Ascii.eqb c "/" || Ascii.eqb c "?" || Ascii.eqb c "#".

(** [_splitnetloc(url, 2)] after the leading [//] has been dropped: the
    netloc runs up to the earliest of ['/', '?', '#'] (or the end), the rest
    starts there. *)
Fixpoint splitnetloc (s : string) : string * string :=
  match s with
  | EmptyString => (EmptyString, EmptyString)
  | String c s' =>
      if netloc_delim c then (EmptyString, s)
      else let (n, r) := splitnetloc s' in (String c n, r)
  end.

(** [_splitparams(url)] (only called when [';' in url]) *)
Definition splitparams (url : string) : string * string :=
  match split_last "/" url with
  | Some (upto_slash, last_seg) =>
      match split_first ";" last_seg with
      | Some (seg, params) => (upto_slash ++ seg, params)
      | None => (url, EmptyString)
      end
  | None =>
      match split_first ";" url with
      | Some (u, params) => (u, params)
      | None => (url, EmptyString)
      end
  end.

Record ParseResult := mkParse {
  pr_scheme : string; pr_netloc : string; pr_path : string;
  pr_params : string; pr_query : string; pr_fragment : string }.

Section Model.

(** Library functions the repository calls and that are not modelled
    character by character: python-slugify's [slugify], urllib's
    [_check_bracketed_netloc] (an IPv6/IPvFuture literal check, true when
    the netloc passes) and [_checknetloc] (the NFKC check on non-ASCII
    netlocs, true when it passes). *)
Variable slugify : string -> string.
Variable check_bracketed_netloc : string -> bool.
Variable checknetloc : string -> bool.

Definition invalid_ipv6 : exn := mkExn OtherException "Invalid IPv6 URL".

(** [urlsplit(url)]; [inl e] when it raises [ValueError]. *)
Definition urlsplit (url0 : string)
  : exn + (string * string * string * string * string) :=
  let url1 := remove_unsafe_bytes (lstrip_c0 url0) in
  (* i = url.find(':'); if i > 0 and url[0] is an ASCII letter and every
     char of url[:i] is a scheme char: scheme, url = url[:i].lower(), url[i+1:] *)
  let '(scheme, url2) :=
    match split_first ":" url1 with
    | Some (String c0 rest as pre, post) =>
        if is_ascii_alpha c0 && forallb is_scheme_char (list_ascii_of_string pre)
        then (lower pre, post) else (EmptyString, url1)
    | _ => (EmptyString, url1)
    end in
  (* if url[:2] == '//': netloc, url = _splitnetloc(url, 2) *)
  let '(netloc, url3) :=
    match url2 with
    | String "/" (String "/" rest) => splitnetloc rest
    | _ => (EmptyString, url2)
    end in
  let has_open := char_in "[" netloc in
  let has_close := char_in "]" netloc in
  if (has_open && negb has_close) || (has_close && negb has_open) then inl invalid_ipv6
  else if has_open && has_close && negb (check_bracketed_netloc netloc) then inl invalid_ipv6
  else
  (* if '#' in url: url, fragment = url.split('#', 1) *)
  let '(url4, fragment) :=
    match split_first "#" url3 with Some p => p | None => (url3, EmptyString) end in
  (* if '?' in url: url, query = url.split('?', 1) *)
  let '(url5, query) :=
    match split_first "?" url4 with Some p => p | None => (url4, EmptyString) end in
  if negb (checknetloc netloc) then inl (mkExn OtherException "netloc normalization")
  else inr (scheme, netloc, url5, query, fragment).

(** [urlparse(url)] *)
Definition urlparse (url : string) : exn + ParseResult :=
  match urlsplit url with
  | inl e => inl e
  | inr (scheme, netloc, u, query, fragment) =>
      let '(u', params) :=
        if existsb (String.eqb scheme) uses_params && char_in ";" u
        then splitparams u else (u, EmptyString) in
      inr (mkParse scheme netloc u' params query fragment)
  end.

(** [SEOAuditAutomation.sanitize_filename] *)
Definition sanitize_filename (url : string) : exn + string :=
  match urlparse url with
  | inl e => inl e
  | inr parsed =>
      let domain := pr_netloc parsed in
      let path := replace_char "/" "_" (pr_path parsed) in
      let filename := slugify (domain ++ path) in
      let filename := if (100 <? String.length filename)%nat
                      then prefix_upto 100%nat filename else filename in
      inr filename
  end.

(** ** The workflow of one URL: [process_url] *)

Inductive status := Success | Failed.

(** The result dict built by [process_url]. *)
Record Result := mkResult {
  r_url : string;
  r_status : status;
  r_screenshot_path : option string;
  r_error : option string;
  r_timestamp : string }.

Definition with_error (r : Result) (msg : string) : Result :=
  mkResult (r_url r) (r_status r) (r_screenshot_path r) (Some msg) (r_timestamp r).

(** What [WebDriverWait(driver, 3).until(...)] does for one selector of a
    locator loop: it times out, it returns an element (with the answer of
    [is_displayed()]), or it raises some other exception. *)
Inductive wait_outcome :=
| WaitTimeout
| Located (element : nat) (displayed : bool)
| WaitRaises (e : exn).

(** One locator loop, e.g. lines 165-183:
    [x = None; for selector in selectors: try: x = wait.until(...);
     if x.is_displayed(): break  except (Timeout, NoSuchElement): continue].
    [found] is the current value of the loop variable; the result is the
    value it holds after the loop, or the exception that escapes it. *)
Fixpoint locate_loop (found : option nat) (cands : list wait_outcome)
  : exn + option nat :=
  match cands with
  | [] => inr found
  | WaitTimeout :: rest => locate_loop found rest
  | Located el true :: _ => inr (Some el)
  | Located el false :: rest => locate_loop (Some el) rest
  | WaitRaises e :: rest =>
      if locator_loop_catches e then locate_loop found rest else inl e
  end.

(** The loop as [process_url] runs it: the variable starts at [None]. *)
Definition resolve (cands : list wait_outcome) : exn + option nat :=
  locate_loop None cands.

(** The browser's behaviour during one call of [process_url]: for each
    group of driver calls, [None] when all of them return and [Some e] when
    the first one that fails raises [e]; for each locator loop, the outcome
    of the wait of each selector in order. *)
Record Env := mkEnv {
  e_open : option exn;          (* driver.get(base_url); wait for <body> *)
  e_initial_shot : option exn;  (* save_screenshot(debug_..._initial) *)
  e_url_input : list wait_outcome;    (* selectors, lines 166-173 *)
  e_fill_url : option exn;      (* clear(); send_keys(url); debug screenshot *)
  e_submit : list wait_outcome;       (* button_selectors, lines 201-208 *)
  e_click_submit : option exn;  (* click(); debug screenshot *)
  e_email_input : list wait_outcome;  (* email_selectors, lines 241-249 *)
  e_fill_email : option exn;    (* clear(); send_keys(email); debug screenshot *)
  e_final_submit : list wait_outcome; (* final_submit_selectors, lines 282-288 *)
  e_click_final : option exn;   (* click(); debug screenshot *)
  e_settle : option exn;        (* time.sleep(5); WebDriverWait(30) for <body> *)
  e_popup : option exn;         (* popup wait and click, lines 335-339 *)
  e_capture : option exn }.     (* scrollHeight; set_window_size; save_screenshot *)

(** Control flow inside a [try] block: an exception, an early [return], or
    falling through with a value. *)
Inductive flow (A : Type) :=
| Raise (e : exn)
| Return (r : Result)
| Next (a : A).
#[global] Arguments Raise {A}.
#[global] Arguments Return {A}.
#[global] Arguments Next {A}.

Definition flow_bind {A B} (m : flow A) (k : A -> flow B) : flow B :=
  match m with
  | Raise e => Raise e
  | Return r => Return r
  | Next a => k a
  end.

Notation "x <- m ;; k" := (flow_bind m (fun x => k))
  (at level 61, m at next level, right associativity).
Notation "m ;;; k" := (flow_bind m (fun _ => k))
  (at level 61, right associativity).

Definition driver (o : option exn) : flow unit :=
  match o with Some e => Raise e | None => Next tt end.

Definition lift_exn {A} (x : exn + A) : flow A :=
  match x with inl e => Raise e | inr a => Next a end.

Definition msg_url_input : string := "Could not find URL input field".
Definition msg_submit : string := "Could not find submit button".
Definition msg_email_input : string := "Could not find email input field".
Definition msg_final_submit : string := "Could not find final submit button".

(** The inner [try] of lines 239-322 (email form). *)
Definition email_form (result : Result) (env : Env) : flow unit :=
  email_input <- lift_exn (resolve (e_email_input env)) ;;
  match email_input with
  | None => Return (with_error result msg_email_input)
  | Some _ =>
    driver (e_fill_email env) ;;;
    final_submit <- lift_exn (resolve (e_final_submit env)) ;;
    match final_submit with
    | None => Return (with_error result msg_final_submit)
    | Some _ => driver (e_click_final env)
    end
  end.

(** [except Exception as e] of lines 319-322. *)
Definition handle_email_form (result : Result) (f : flow unit) : flow unit :=
  match f with
  | Raise e =>
      if is_Exception e
      then Return (with_error result ("Failed to handle email form: " ++ exn_str e))
      else Raise e
  | other => other
  end.

(** The [try] body of lines 148-363; it always ends in [return]. *)
Definition process_url_body (output_dir url : string) (result : Result) (env : Env)
  : flow Empty_set :=
  driver (e_open env) ;;;
  name <- lift_exn (sanitize_filename url) ;;
  driver (e_initial_shot env) ;;;
  url_input <- lift_exn (resolve (e_url_input env)) ;;
  match url_input with
  | None => Return (with_error result msg_url_input)
  | Some _ =>
  driver (e_fill_url env) ;;;
  submit_button <- lift_exn (resolve (e_submit env)) ;;
  match submit_button with
  | None => Return (with_error result msg_submit)
  | Some _ =>
  driver (e_click_submit env) ;;;
  handle_email_form result (email_form result env) ;;;
  driver (e_settle env) ;;;
  (* popup: [except (TimeoutException, NoSuchElementException)] ignores *)
  match e_popup env with
  | Some e => if locator_loop_catches e then Next tt else Raise e
  | None => Next tt
  end ;;;
  let screenshot_path := output_dir ++ "/" ++ name ++ ".png" in
  driver (e_capture env) ;;;
  Return (mkResult (r_url result) Success (Some screenshot_path)
                   (r_error result) (r_timestamp result))
  end
  end.

(** What a Python call does: it returns a value or raises. *)
Inductive call_outcome (A : Type) := Returned (a : A) | Raised (e : exn).
#[global] Arguments Returned {A}.
#[global] Arguments Raised {A}.

(** [SEOAuditAutomation.process_url(url, output_dir)]; [ts] is
    [datetime.now()] formatted. *)
Definition process_url (output_dir ts url : string) (env : Env) : call_outcome Result :=
  let result := mkResult url Failed None None ts in
  match process_url_body output_dir url result env with
  | Return r => Returned r
  | Next v => match v with end
  | Raise e =>
      if is_Exception e
      then Returned (with_error result ("Unexpected error: " ++ exn_str e))
      else Raised e
  end.

(** ** The batch: [setup_driver], [cleanup], [process_csv] *)

(** The state of the [SEOAuditAutomation] object and of the run directory
    that the claims observe: [self.driver] (a session handle), the
    sessions started and quit so far, and [results.csv] once written. *)
Record BState := mkBState {
  st_driver : option nat;
  st_started : list nat;
  st_quit : list nat;
  st_results_csv : option (list Result) }.

(** A fresh object: [__init__] sets [self.driver = None]. *)
Definition init_state : BState := mkBState None [] [] None.

(** The outside world during one [process_csv] call. *)
Record BatchEnv := mkBatchEnv {
  b_mkdir : option exn;          (* screenshots_dir.mkdir(...) *)
  b_read_csv : exn + (nat * list string);
      (* pd.read_csv: raises, or (df.shape[1], df.iloc[:, 0].tolist()) *)
  b_chrome : option exn;         (* webdriver.Chrome(service, options) *)
  b_page_load_timeout : option exn; (* driver.set_page_load_timeout(60) *)
  b_item : nat -> Env;           (* the browser while the i-th URL runs *)
  b_item_ts : nat -> string;     (* datetime.now() for the i-th URL *)
  b_pause : nat -> option exn;   (* time.sleep(2) after the i-th URL *)
  b_write_results : option exn } (* results_df.to_csv(...) *).

(** State and exception passing. *)
Definition M (A : Type) := BState -> call_outcome A * BState.

Definition ret {A} (a : A) : M A := fun st => (Returned a, st).
Definition raise {A} (e : exn) : M A := fun st => (Raised e, st).
Definition mbind {A B} (m : M A) (k : A -> M B) : M B :=
  fun st => match m st with
            | (Returned a, st') => k a st'
            | (Raised e, st') => (Raised e, st')
            end.
Definition modify (f : BState -> BState) : M unit := fun st => (Returned tt, f st).
Definition call (o : option exn) : M unit :=
  match o with Some e => raise e | None => ret tt end.

Notation "x <-- m ;; k" := (mbind m (fun x => k))
  (at level 61, m at next level, right associativity).
Notation "m >>> k" := (mbind m (fun _ => k))
  (at level 61, right associativity).

(** [try: m finally: fin] (the [finally] block's own exception, if any,
    replaces the outcome of [m]). *)
Definition try_finally {A} (m : M A) (fin : M unit) : M A :=
  fun st => match m st with
            | (o, st1) => match fin st1 with
                          | (Returned _, st2) => (o, st2)
                          | (Raised e, st2) => (Raised e, st2)
                          end
            end.


Definition set_driver (d : option nat) (st : BState) : BState :=
  mkBState d (st_started st) (st_quit st) (st_results_csv st).

(** [setup_driver]: [self.driver = webdriver.Chrome(...)], then
    [self.driver.set_page_load_timeout(60)]; a [WebDriverException] is
    logged and re-raised. *)
Definition setup_driver (benv : BatchEnv) : M unit :=
  call (b_chrome benv) >>>
  modify (fun st => let id := List.length (st_started st) in
                    mkBState (Some id) (id :: st_started st) (st_quit st)
                             (st_results_csv st)) >>>
  call (b_page_load_timeout benv).

(** [cleanup]: [if self.driver: self.driver.quit(); self.driver = None].
    [quit()] is taken to return. *)
Definition cleanup : M unit :=
  fun st => match st_driver st with
            | Some d => (Returned tt, mkBState None (st_started st) (d :: st_quit st)
                                              (st_results_csv st))
            | None => (Returned tt, st)
            end.

(** The [for url in tqdm(urls)] loop of lines 411-421; [i] is the index of
    [url] in [urls]. *)
Fixpoint url_loop (output_dir : string) (benv : BatchEnv) (i : nat)
         (urls : list string) (results : list Result)
         (successful failed : list string)
  : M (list Result * list string * list string) :=
  match urls with
  | [] => ret (results, successful, failed)
  | url :: rest =>
      result <-- (fun st => (process_url (output_dir ++ "/screenshots")
                               (b_item_ts benv i) url (b_item benv i), st)) ;;
      let results := app results [result] in
      let '(successful, failed) :=
        match r_status result with
        | Success => (app successful [url], failed)
        | Failed => (successful, app failed [url])
        end in
      call (b_pause benv i) >>>
      url_loop output_dir benv (S i) rest results successful failed
  end.

Definition no_columns : exn := mkExn OtherException "CSV file has no columns".

(** The [try] body of [process_csv], lines 390-434 (its [except Exception]
    logs and re-raises, which changes nothing observable here). *)
Definition process_csv_body (output_dir : string) (benv : BatchEnv)
  : M (list string * list string) :=
  df <-- (match b_read_csv benv with inl e => raise e | inr t => ret t end) ;;
  let '(ncols, urls) := df in
  if Nat.eqb ncols 0 then raise no_columns else
  match urls with
  | [] => ret ([], [])
  | _ :: _ =>
    setup_driver benv >>>
    loop <-- url_loop output_dir benv 0 urls [] [] [] ;;
    let '(results, successful, failed) := loop in
    call (b_write_results benv) >>>
    modify (fun st => mkBState (st_driver st) (st_started st) (st_quit st)
                               (Some results)) >>>
    ret (successful, failed)
  end.

(** [SEOAuditAutomation.process_csv(csv_path, output_dir)]. *)
Definition process_csv (output_dir : string) (benv : BatchEnv)
  : M (list string * list string) :=
  call (b_mkdir benv) >>>
  try_finally (process_csv_body output_dir benv) cleanup.


End Model.

(** ** Packaging: [create_zip] over a file tree *)

Set Warnings "-register-all".

(** A directory tree as [os.scandir] lists it: files and directories, the
    entries of a directory in listing order.  Paths are lists of
    normalized name components relative to a root; [[]] is the root
    itself ([Path(".")] or [Path("/")]). *)
Inductive node :=
| FileN
| DirN (entries : list (string * node)).

Fixpoint entry (name : string) (es : list (string * node)) : option node :=
  match es with
  | [] => None
  | (n, c) :: r => if String.eqb n name then Some c else entry name r
  end.

Fixpoint lookup (p : list string) (n : node) : option node :=
  match p with
  | [] => Some n
  | x :: p' => match n with
               | FileN => None
               | DirN es => match entry x es with
                            | Some c => lookup p' c
                            | None => None
                            end
               end
  end.

Fixpoint set_entry (name : string) (c : node) (es : list (string * node))
  : list (string * node) :=
  match es with
  | [] => []
  | (n, c0) :: r => if String.eqb n name then (n, c) :: r else (n, c0) :: set_entry name c r
  end.

(** [open(path, "w")], as [zipfile.ZipFile(path, 'w')] does: an existing
    file is truncated, a new one is added at the end of its directory's
    listing; a directory, a missing parent or a file used as a directory
    raise ([None]). *)
Fixpoint create_file (p : list string) (n : node) : option node :=
  match p, n with
  | [], _ => None
  | _, FileN => None
  | [x], DirN es =>
      match entry x es with
      | Some FileN => Some n
      | Some (DirN _) => None
      | None => Some (DirN (app es [(x, FileN)]))
      end
  | x :: p', DirN es =>
      match entry x es with
      | Some c => match create_file p' c with
                  | Some c' => Some (DirN (set_entry x c' es))
                  | None => None
                  end
      | None => None
      end
  end.

(** [os.walk(top)] (top-down, [followlinks=False]) flattened to the file
    paths it yields, relative to [top]: the files of [top] in listing
    order, then the walk of each subdirectory in listing order.  A [top]
    that is not a directory yields nothing. *)
Fixpoint walk (n : node) : list (list string) :=
  match n with
  | FileN => []
  | DirN es =>
      let fix files (es : list (string * node)) : list (list string) :=
        match es with
        | [] => []
        | (nm, FileN) :: r => [nm] :: files r
        | (_, DirN _) :: r => files r
        end in
      let fix subdirs (es : list (string * node)) : list (list string) :=
        match es with
        | [] => []
        | (nm, c) :: r =>
            match c with
            | FileN => subdirs r
            | DirN _ => app (map (cons nm) (walk c)) (subdirs r)
            end
        end in
      app (files es) (subdirs es)
  end.

(** [Path(p).parent] ([Path(".").parent] is [Path(".")]). *)
Definition path_parent (p : list string) : list string := removelast p.

(** [os.path.relpath(path, start)] for a [start] that is a prefix of
    [path] (the only way [create_zip] calls it). *)
Definition relpath (path start : list string) : list string :=
  skipn (List.length start) path.

(** [SEOAuditAutomation.create_zip(output_dir, zip_path)]: [ts] is the
    formatted [datetime.now()]; the result is the list of archive names
    written by [zipf.write], in order, and the zip path; [None] when
    opening the archive raises.  Each [zipf.write] is taken to succeed
    (it also raises for an unreadable file or one dated before 1980), so
    the model returns in every case the code does, with the same names. *)
Definition create_zip (fs : node) (output_dir : list string)
           (zip_path : option (list string)) (ts : string)
  : option (list (list string) * list string) :=
  let zip_path := match zip_path with
                  | None => app (path_parent output_dir)
                                [("seo_audit_results_" ++ ts ++ ".zip")%string]
                  | Some z => z
                  end in
  match create_file zip_path fs with
  | None => None
  | Some fs1 =>
      let files := match lookup output_dir fs1 with
                   | Some (DirN es) => walk (DirN es)
                   | _ => []
                   end in
      Some (map (fun rel => relpath (app output_dir rel) (path_parent output_dir)) files,
            zip_path)
  end.

(** A well-formed tree: the names of each directory are pairwise distinct. *)
Fixpoint wf (n : node) : Prop :=
  match n with
  | FileN => True
  | DirN es =>
      NoDup (map fst es) /\
      (fix all (es : list (string * node)) : Prop :=
         match es with
         | [] => True
         | (_, c) :: r => wf c /\ all r
         end) es
  end.

(** The files present under [output_dir]: the paths [rel] (relative to
    [output_dir]) at which the tree holds a file. *)
Definition file_under (fs : node) (output_dir rel : list string) : Prop :=
  rel <> [] /\ lookup (app output_dir rel) fs = Some FileN.

(** How many files the tree holds below a node. *)
Fixpoint count_files (n : node) : nat :=
  match n with
  | FileN => 1
  | DirN es =>
      (fix sum (es : list (string * node)) : nat :=
         match es with
         | [] => 0
         | (_, c) :: r => count_files c + sum r
         end) es
  end.

Definition files_count_under (fs : node) (output_dir : list string) : nat :=
  match lookup output_dir fs with
  | Some (DirN es) => count_files (DirN es)
  | _ => 0
  end.

(** Structural induction on trees, through the nested entry lists. *)
Section NodeInd.
Variable P : node -> Prop.
Hypothesis HF : P FileN.
Hypothesis HD : forall es, Forall (fun e => P (snd e)) es -> P (DirN es).
Fixpoint node_ind' (n : node) : P n :=
  match n with
  | FileN => HF
  | DirN es =>
      HD es ((fix go (es : list (string * node)) : Forall (fun e => P (snd e)) es :=
                match es with
                | [] => Forall_nil _
                | (nm, c) :: r => @Forall_cons _ (fun e => P (snd e)) (nm, c) r (node_ind' c) (go r)
                end) es)
  end.
End NodeInd.

(** The two halves of [walk] on a directory: its own files, then the
    walks of its subdirectories. *)
Fixpoint top_files (es : list (string * node)) : list (list string) :=
  match es with
  | [] => []
  | (nm, FileN) :: r => [nm] :: top_files r
  | (_, DirN _) :: r => top_files r
  end.

Fixpoint sub_walks (es : list (string * node)) : list (list string) :=
  match es with
  | [] => []
  | (nm, c) :: r =>
      match c with
      | FileN => sub_walks r
      | DirN _ => app (map (cons nm) (walk c)) (sub_walks r)
      end
  end.

(** ** python-slugify on plain ASCII text

    [slugify(text)] with its default arguments, for ASCII [text] holding
    no ['&'] (HTML entities) and no comma between two digits: lower-case,
    every run of characters outside [[-a-z0-9]] becomes one ['-'], runs of
    ['-'] collapse, and ['-'] is stripped at both ends. *)
Definition slug_keeps (c : ascii) : bool :=
  let n := nat_of_ascii c in
  (((97 <=? n) && (n <=? 122)) || ((48 <=? n) && (n <=? 57)))%nat.

Fixpoint slug_from (pending started : bool) (s : string) : string :=
  match s with
  | EmptyString => EmptyString
  | String c r =>
      let c' := lower_char c in
      if slug_keeps c'
      then if pending && started
           then String "-" (String c' (slug_from false true r))
           else String c' (slug_from false true r)
      else slug_from true started r
  end.

Definition slugify_ascii (s : string) : string := slug_from false false s.

(** The library checks that only fire on netlocs with brackets or
    non-ASCII characters, none of which occur in the concrete inputs
    below. *)
Definition check_bracketed_passes (_ : string) : bool := true.
Definition checknetloc_ascii (_ : string) : bool := true.

Definition sanitize_ascii : string -> exn + string :=
  sanitize_filename slugify_ascii check_bracketed_passes checknetloc_ascii.

(** ** Properties the statements refer to *)

(** No browser call of [env] raises a [KeyboardInterrupt] (or any other
    non-[Exception]). *)
Definition raises_Exception (o : option exn) : bool :=
  match o with Some e => is_Exception e | None => true end.

Definition waits_raise_Exception (l : list wait_outcome) : bool :=
  forallb (fun w => match w with WaitRaises e => is_Exception e | _ => true end) l.

Definition interrupt_free (env : Env) : bool :=
  raises_Exception (e_open env) && raises_Exception (e_initial_shot env) &&
  waits_raise_Exception (e_url_input env) && raises_Exception (e_fill_url env) &&
  waits_raise_Exception (e_submit env) && raises_Exception (e_click_submit env) &&
  waits_raise_Exception (e_email_input env) && raises_Exception (e_fill_email env) &&
  waits_raise_Exception (e_final_submit env) && raises_Exception (e_click_final env) &&
  raises_Exception (e_settle env) && raises_Exception (e_popup env) &&
  raises_Exception (e_capture env).

(** The error messages [process_url] can put into a failed result. *)
Definition failure_message (m : string) : Prop :=
  In m [msg_url_input; msg_submit; msg_email_input; msg_final_submit] \/
  (exists d, m = "Failed to handle email form: " ++ d) \/
  (exists d, m = "Unexpected error: " ++ d).

(** The shape of every result [process_url] returns. *)
Definition result_shape (output_dir ts url : string) (r : Result) : Prop :=
  r_url r = url /\ r_timestamp r = ts /\
  ((r_status r = Success /\ r_error r = None /\
    exists name, r_screenshot_path r = Some (output_dir ++ "/" ++ name ++ ".png")) \/
   (r_status r = Failed /\ r_screenshot_path r = None /\
    exists m, r_error r = Some m /\ failure_message m)).

(** The four mandatory locator steps of [process_url]. *)
Inductive mandatory_step := StepUrlInput | StepSubmit | StepEmailInput | StepFinalSubmit.

Definition step_msg (k : mandatory_step) : string :=
  match k with
  | StepUrlInput => msg_url_input
  | StepSubmit => msg_submit
  | StepEmailInput => msg_email_input
  | StepFinalSubmit => msg_final_submit
  end.

Definition step_chain (k : mandatory_step) (env : Env) : list wait_outcome :=
  match k with
  | StepUrlInput => e_url_input env
  | StepSubmit => e_submit env
  | StepEmailInput => e_email_input env
  | StepFinalSubmit => e_final_submit env
  end.

Definition found (x : exn + option nat) : bool :=
  match x with inr (Some _) => true | _ => false end.

(** Every call before step [k] returned and every earlier locator loop
    found an element. *)
Definition reaches (sanitize : string -> exn + string) (url : string)
           (k : mandatory_step) (env : Env) : bool :=
  let open_ok := match e_open env, sanitize url, e_initial_shot env with
                 | None, inr _, None => true | _, _, _ => false end in
  let input_ok := open_ok && found (resolve (e_url_input env)) &&
                  match e_fill_url env with None => true | Some _ => false end in
  let submit_ok := input_ok && found (resolve (e_submit env)) &&
                   match e_click_submit env with None => true | Some _ => false end in
  let email_ok := submit_ok && found (resolve (e_email_input env)) &&
                  match e_fill_email env with None => true | Some _ => false end in
  match k with
  | StepUrlInput => open_ok
  | StepSubmit => input_ok
  | StepEmailInput => submit_ok
  | StepFinalSubmit => email_ok
  end.

(** The places in [process_url] where a call can raise, in source order:
    the driver calls, [sanitize_filename] (first called for the initial
    debug screenshot) and the locator loops; the four [At*] points from
    [AtEmailInput] to [AtClickFinal] lie inside the email-form [try]. *)
Inductive raise_point :=
| AtOpen | AtSanitize | AtInitialShot | AtUrlInput | AtFillUrl | AtSubmit
| AtClickSubmit | AtEmailInput | AtFillEmail | AtFinalSubmit | AtClickFinal
| AtSettle | AtPopup | AtCapture.

Definition all_points : list raise_point :=
  [AtOpen; AtSanitize; AtInitialShot; AtUrlInput; AtFillUrl; AtSubmit;
   AtClickSubmit; AtEmailInput; AtFillEmail; AtFinalSubmit; AtClickFinal;
   AtSettle; AtPopup; AtCapture].

Definition point_rank (p : raise_point) : nat :=
  match p with
  | AtOpen => 0 | AtSanitize => 1 | AtInitialShot => 2 | AtUrlInput => 3
  | AtFillUrl => 4 | AtSubmit => 5 | AtClickSubmit => 6 | AtEmailInput => 7
  | AtFillEmail => 8 | AtFinalSubmit => 9 | AtClickFinal => 10 | AtSettle => 11
  | AtPopup => 12 | AtCapture => 13
  end.

Definition wait_exn (x : exn + option nat) : option exn :=
  match x with inl e => Some e | inr _ => None end.

(** The exception raised at point [p], if any (a popup exception of the
    kinds the popup [except] catches raises nothing further). *)
Definition point_exn (sanitize : string -> exn + string) (url : string)
           (p : raise_point) (env : Env) : option exn :=
  match p with
  | AtOpen => e_open env
  | AtSanitize => match sanitize url with inl e => Some e | inr _ => None end
  | AtInitialShot => e_initial_shot env
  | AtUrlInput => wait_exn (resolve (e_url_input env))
  | AtFillUrl => e_fill_url env
  | AtSubmit => wait_exn (resolve (e_submit env))
  | AtClickSubmit => e_click_submit env
  | AtEmailInput => wait_exn (resolve (e_email_input env))
  | AtFillEmail => e_fill_email env
  | AtFinalSubmit => wait_exn (resolve (e_final_submit env))
  | AtClickFinal => e_click_final env
  | AtSettle => e_settle env
  | AtPopup => match e_popup env with
               | Some e => if locator_loop_catches e then None else Some e
               | None => None
               end
  | AtCapture => e_capture env
  end.

(** Execution goes on past point [p]: nothing is raised there, and a
    locator loop found an element. *)
Definition point_passes (sanitize : string -> exn + string) (url : string)
           (p : raise_point) (env : Env) : bool :=
  match p with
  | AtUrlInput => found (resolve (e_url_input env))
  | AtSubmit => found (resolve (e_submit env))
  | AtEmailInput => found (resolve (e_email_input env))
  | AtFinalSubmit => found (resolve (e_final_submit env))
  | _ => match point_exn sanitize url p env with None => true | Some _ => false end
  end.

(** Execution reaches point [p]: it goes on past every earlier point. *)
Definition reaches_point (sanitize : string -> exn + string) (url : string)
           (p : raise_point) (env : Env) : bool :=
  forallb (fun q => point_passes sanitize url q env) (firstn (point_rank p) all_points).

Definition in_email_block (p : raise_point) : bool :=
  match p with
  | AtEmailInput | AtFillEmail | AtFinalSubmit | AtClickFinal => true
  | _ => false
  end.

(** The prefix the handler that catches an exception raised at [p] puts
    before [str(e)]: the email-form handler of line 321 or the outer one of
    line 367. *)
Definition handler_prefix (p : raise_point) : string :=
  if in_email_block p then "Failed to handle email form: " else "Unexpected error: ".

(** [needle in hay] *)
Definition contains (needle hay : string) : bool :=
  match String.index 0 needle hay with Some _ => true | None => false end.

(** A URL assembled from its parts, as [urlunsplit] writes one with a
    netloc: [scheme://netloc path ?query #fragment]. *)
Definition url_of (scheme netloc path : string) (query fragment : option string) : string :=
  scheme ++ "://" ++ netloc ++ path ++
  (match query with Some q => "?" ++ q | None => "" end) ++
  (match fragment with Some f => "#" ++ f | None => "" end).

(** What makes each part read back as that part. *)
Definition valid_scheme (s : string) : bool :=
  match s with
  | EmptyString => false
  | String c _ => is_ascii_alpha c && forallb is_scheme_char (list_ascii_of_string s)
  end.

Definition no_unsafe (x : string) : bool :=
  negb (char_in TAB x || char_in CR x || char_in LF x).

Definition netloc_part (n : string) : bool :=
  no_unsafe n && forallb (fun c => negb (netloc_delim c)) (list_ascii_of_string n).

Definition path_part (p : string) : bool :=
  no_unsafe p && negb (char_in "?" p || char_in "#" p) &&
  match p with EmptyString => true | String c _ => Ascii.eqb c "/" end.

Definition query_part (q : option string) : bool :=
  match q with None => true | Some q => no_unsafe q && negb (char_in "#" q) end.

Definition fragment_part (f : option string) : bool :=
  match f with None => true | Some f => no_unsafe f end.

(** [scheme in uses_params] after [urlsplit] lower-cased it. *)
Definition in_uses_params (s : string) : bool :=
  existsb (String.eqb (lower s)) uses_params.

(** ** Concrete browsers, runs and trees *)

Definition not_interactable : exn := mkExn OtherException "element not interactable".

(** Every step succeeds; the first URL selector times out and no popup
    shows up. *)
Definition ok_env : Env :=
  mkEnv None None [WaitTimeout; Located 1 true] None [Located 2 true] None
        [Located 3 true] None [WaitTimeout; Located 4 true] None None
        (Some (mkExn TimeoutException "no popup")) None.

(** The first of the six URL selectors matches a hidden input, the other
    five time out. *)
Definition hidden_chain : list wait_outcome :=
  [Located 1 false; WaitTimeout; WaitTimeout; WaitTimeout; WaitTimeout; WaitTimeout].

(** ... and [clear()] on that hidden input raises. *)
Definition hidden_input_env : Env :=
  mkEnv None None hidden_chain (Some not_interactable) [Located 2 true] None
        [Located 3 true] None [Located 4 true] None None None None.

(** Filling the email field raises. *)
Definition email_fail_env : Env :=
  mkEnv None None [Located 1 true] None [Located 2 true] None
        [Located 3 true] (Some not_interactable) [Located 4 true] None None None None.

(** [driver.get] times out. *)
Definition open_timeout_env : Env :=
  mkEnv (Some (mkExn TimeoutException "page load")) None [] None [] None
        [] None [] None None None None.

(** None of the submit selectors becomes clickable. *)
Definition submit_missing_env : Env :=
  mkEnv None None [Located 1 true] None [WaitTimeout; WaitTimeout; WaitTimeout] None
        [] None [] None None None None.

Definition batch_of (urls : list string) (item : nat -> Env) : BatchEnv :=
  mkBatchEnv None (inr (1%nat, urls)) None None item (fun _ => "t") (fun _ => None) None.

(** Two URLs, both processed without trouble. *)
Definition ok_batch : BatchEnv := batch_of ["a.com"; "b.com"] (fun _ => ok_env).

(** Ctrl-C while the second URL loads. *)
Definition interrupted_batch : BatchEnv :=
  batch_of ["a.com"; "b.com"]
           (fun i => match i with
                     | 1%nat => mkEnv (Some (mkExn KeyboardInterrupt "")) None [] None []
                                      None [] None [] None None None None
                     | _ => ok_env
                     end).

(** A CSV file with a header and no rows. *)
Definition empty_batch : BatchEnv := batch_of [] (fun _ => ok_env).

(** The current directory holding one screenshot. *)
Definition cwd_tree : node := DirN [("a.png", FileN)].

(** [out/run] with a screenshot, a subdirectory and the results file. *)
Definition run_tree : node :=
  DirN [("out", DirN [("run", DirN [("a.png", FileN);
                                    ("shots", DirN [("b.png", FileN)]);
                                    ("results.csv", FileN)])])].

(** ** Definitions used by the further properties *)

(** A string made of C0 control characters and spaces only. *)
Definition all_c0 (w : string) : bool :=
  forallb c0_control_or_space (list_ascii_of_string w).

(** The bytes [urlsplit] deletes: tab, carriage return, line feed. *)
Definition unsafe_byte (c : ascii) : bool :=
  Ascii.eqb c TAB || Ascii.eqb c CR || Ascii.eqb c LF.

(** The element of the last candidate that matched, if any. *)
Fixpoint last_located (l : list wait_outcome) : option nat :=
  match l with
  | [] => None
  | Located el _ :: r => match last_located r with Some x => Some x | None => Some el end
  | _ :: r => last_located r
  end.

(** No candidate is visible, and none raises an exception the locator
    loops let through. *)
Definition no_visible_no_raise (l : list wait_outcome) : bool :=
  forallb (fun w => match w with
                    | Located _ true => false
                    | Located _ false | WaitTimeout => true
                    | WaitRaises e => locator_loop_catches e
                    end) l.

(** The same browser, with another outcome for the popup wait. *)
Definition with_popup (env : Env) (o : option exn) : Env :=
  mkEnv (e_open env) (e_initial_shot env) (e_url_input env) (e_fill_url env)
        (e_submit env) (e_click_submit env) (e_email_input env) (e_fill_email env)
        (e_final_submit env) (e_click_final env) (e_settle env) o (e_capture env).

(** [result["status"] == "success"]. *)
Definition is_success (r : Result) : bool :=
  match r_status r with Success => true | Failed => false end.

(** The [process_url] outcomes of the URLs of a batch, item [i] on. *)
Section RunItems.
Variable slugify : string -> string.
Variable check_bracketed_netloc : string -> bool.
Variable checknetloc : string -> bool.

Fixpoint run_items (output_dir : string) (benv : BatchEnv) (i : nat) (urls : list string)
  : list (call_outcome Result) :=
  match urls with
  | [] => []
  | url :: rest =>
      process_url slugify check_bracketed_netloc checknetloc (output_dir ++ "/screenshots")
                  (b_item_ts benv i) url (b_item benv i)
        :: run_items output_dir benv (S i) rest
  end.
End RunItems.

(** The archive path [create_zip] opens. *)
Definition zip_target (output_dir : list string) (zip_path : option (list string))
           (ts : string) : list string :=
  match zip_path with
  | None => app (path_parent output_dir) [("seo_audit_results_" ++ ts ++ ".zip")%string]
  | Some z => z
  end.


(** * Proofs *)

Section Proofs.

Variable slugify : string -> string.
Variable check_bracketed_netloc : string -> bool.
Variable checknetloc : string -> bool.

Local Abbreviation sanitize := (sanitize_filename slugify check_bracketed_netloc checknetloc).

Ltac destruct_in H :=
  repeat match type of H with
         | context [match ?x with _ => _ end] => destruct x
         | context [if ?b then _ else _] => destruct b
         end.

Lemma urlsplit_error_is_Exception url e :
  urlsplit check_bracketed_netloc checknetloc url = inl e -> is_Exception e = true.
Proof.
  unfold urlsplit; intro H; destruct_in H; inversion H; subst; reflexivity.
Qed.

Lemma sanitize_error_is_Exception url e :
  sanitize url = inl e -> is_Exception e = true.
Proof.
  unfold sanitize_filename, urlparse.
  destruct (urlsplit check_bracketed_netloc checknetloc url) as [e'|[[[[? ?] ?] ?] ?]] eqn:E;
    intro H; cbn in H.
  - inversion H; subst. eapply urlsplit_error_is_Exception; eauto.
  - destruct (_ && _); [destruct (splitparams _)|]; discriminate.
Qed.

(** ** String facts *)

Lemma string_app_assoc (a b c : string) : (a ++ b) ++ c = a ++ b ++ c.
Proof. induction a as [|d a IH]; cbn; [reflexivity|rewrite IH; reflexivity]. Qed.

Lemma string_app_nil_r (a : string) : a ++ "" = a.
Proof. induction a as [|d a IH]; cbn; [reflexivity|rewrite IH; reflexivity]. Qed.

Lemma char_in_cons c d s : char_in c (String d s) = Ascii.eqb c d || char_in c s.
Proof. reflexivity. Qed.

Lemma char_in_app c a b : char_in c (a ++ b) = char_in c a || char_in c b.
Proof.
  induction a as [|d a IH]; [reflexivity|].
  cbn [append]; rewrite !char_in_cons, IH, orb_assoc; reflexivity.
Qed.

Lemma remove_char_id c s : char_in c s = false -> remove_char c s = s.
Proof.
  induction s as [|d s IH]; [reflexivity|].
  rewrite char_in_cons; intro H; apply orb_false_iff in H as [H1 H2]; cbn.
  rewrite Ascii.eqb_sym, H1, IH by exact H2; reflexivity.
Qed.

Lemma split_first_none c s : char_in c s = false -> split_first c s = None.
Proof.
  induction s as [|d s IH]; [reflexivity|].
  rewrite char_in_cons; intro H; apply orb_false_iff in H as [H1 H2]; cbn.
  rewrite H1, IH by exact H2; reflexivity.
Qed.

Lemma split_first_app c a b :
  char_in c a = false -> split_first c (a ++ String c b) = Some (a, b).
Proof.
  induction a as [|d a IH]; intro H.
  - cbn; rewrite Ascii.eqb_refl; reflexivity.
  - rewrite char_in_cons in H; apply orb_false_iff in H as [H1 H2].
    cbn; rewrite H1, IH by exact H2; reflexivity.
Qed.

Lemma split_first_head c d s pre post :
  Ascii.eqb c d = false -> split_first c (String d s) = Some (pre, post) ->
  exists rest, pre = String d rest.
Proof.
  cbn; intros H; rewrite H.
  destruct (split_first c s) as [[a b]|]; intro E; inversion E; eauto.
Qed.

Lemma char_in_forallb (P : ascii -> bool) c s :
  forallb P (list_ascii_of_string s) = true -> P c = false -> char_in c s = false.
Proof.
  induction s as [|d s IH]; [reflexivity|].
  intros H Hc; cbn [list_ascii_of_string forallb] in H.
  apply andb_true_iff in H as [H1 H2].
  rewrite char_in_cons, (IH H2 Hc), orb_false_r.
  destruct (Ascii.eqb_spec c d); [subst; congruence|reflexivity].
Qed.

Lemma splitnetloc_app n r :
  forallb (fun c => negb (netloc_delim c)) (list_ascii_of_string n) = true ->
  match r with EmptyString => true | String c _ => netloc_delim c end = true ->
  splitnetloc (n ++ r) = (n, r).
Proof.
  intros Hn Hr; induction n as [|d n IH].
  - destruct r as [|c r]; [reflexivity|]; cbn; rewrite Hr; reflexivity.
  - cbn in Hn; apply andb_true_iff in Hn as [H1 H2].
    cbn; apply negb_true_iff in H1; rewrite H1, IH by exact H2; reflexivity.
Qed.

Lemma no_unsafe_app a b :
  no_unsafe (a ++ b) = no_unsafe a && no_unsafe b.
Proof.
  unfold no_unsafe; rewrite !char_in_app.
  destruct (char_in TAB a), (char_in CR a), (char_in LF a),
           (char_in TAB b), (char_in CR b), (char_in LF b); reflexivity.
Qed.

Lemma remove_unsafe_bytes_id s : no_unsafe s = true -> remove_unsafe_bytes s = s.
Proof.
  unfold no_unsafe, remove_unsafe_bytes; intro H.
  apply negb_true_iff, orb_false_iff in H as [H H3]; apply orb_false_iff in H as [H1 H2].
  rewrite (remove_char_id TAB s H1), (remove_char_id CR s H2), (remove_char_id LF s H3).
  reflexivity.
Qed.

Lemma alpha_not_c0 c : is_ascii_alpha c = true -> c0_control_or_space c = false.
Proof.
  unfold is_ascii_alpha, c0_control_or_space; intro H.
  apply Nat.leb_gt.
  apply orb_true_iff in H as [H|H]; apply andb_true_iff in H as [H _];
    apply Nat.leb_le in H; lia.
Qed.

Lemma scheme_no_unsafe s : valid_scheme s = true -> no_unsafe s = true.
Proof.
  destruct s as [|c r]; [discriminate|]; intro H; apply andb_true_iff in H as [_ H].
  unfold no_unsafe.
  rewrite (char_in_forallb _ TAB _ H), (char_in_forallb _ CR _ H),
          (char_in_forallb _ LF _ H) by reflexivity.
  reflexivity.
Qed.

Lemma scheme_no_colon s : valid_scheme s = true -> char_in ":" s = false.
Proof.
  destruct s as [|c r]; [discriminate|]; intro H; apply andb_true_iff in H as [_ H].
  apply (char_in_forallb _ _ _ H); reflexivity.
Qed.

(** ** URLs that differ in scheme, query or fragment *)

Lemma urlsplit_url_of s n p q f
  (Hs : valid_scheme s = true) (Hn : netloc_part n = true) (Hp : path_part p = true)
  (Hq : query_part q = true) (Hf : fragment_part f = true) :
  urlsplit check_bracketed_netloc checknetloc (url_of s n p q f) =
  match urlsplit check_bracketed_netloc checknetloc ("//" ++ n ++ p) with
  | inl e => inl e
  | inr _ =>
      inr (lower s, n, p, match q with Some q => q | None => "" end,
           match f with Some f => f | None => "" end)
  end.
Proof.
  unfold netloc_part, path_part in *.
  apply andb_true_iff in Hn as [Hn1 Hn2].
  apply andb_true_iff in Hp as [Hp Hp3]; apply andb_true_iff in Hp as [Hp1 Hp2].
  apply negb_true_iff, orb_false_iff in Hp2 as [Hpq Hph].
  set (Q := match q with Some q => "?" ++ q | None => "" end).
  set (F := match f with Some f => "#" ++ f | None => "" end).
  assert (HQ : no_unsafe Q = true /\ char_in "#" Q = false).
  { subst Q; destruct q as [q|]; [|split; reflexivity].
    cbn in Hq; apply andb_true_iff in Hq as [Hq1 Hq2]; apply negb_true_iff in Hq2.
    cbn [append]; unfold no_unsafe in *; rewrite !char_in_cons, Hq2; split; [|reflexivity].
    exact Hq1. }
  assert (HF : no_unsafe F = true).
  { subst F; destruct f as [f|]; [exact Hf|reflexivity]. }
  destruct HQ as [HQ1 HQ2].
  assert (Hsplit_hash : split_first "#" (p ++ Q ++ F) =
                        match f with Some f' => Some (p ++ Q, f') | None => None end).
  { subst F; destruct f as [f'|].
    - rewrite <- string_app_assoc; apply split_first_app; rewrite char_in_app, Hph, HQ2; reflexivity.
    - rewrite string_app_nil_r; apply split_first_none; rewrite char_in_app, Hph, HQ2; reflexivity. }
  assert (Hsplit_q : split_first "?" (p ++ Q) =
                     match q with Some q' => Some (p, q') | None => None end).
  { subst Q; destruct q as [q'|].
    - apply split_first_app; exact Hpq.
    - rewrite string_app_nil_r; apply split_first_none; exact Hpq. }
  assert (Hstart : match p ++ Q ++ F with EmptyString => true
                                        | String c _ => netloc_delim c end = true).
  { destruct p as [|c p]; [|apply Ascii.eqb_eq in Hp3; subst c; reflexivity].
    subst Q F; destruct q; [reflexivity|]; destruct f; reflexivity. }
  assert (Hstart_p : match p with EmptyString => true
                                | String c _ => netloc_delim c end = true).
  { destruct p as [|c p]; [reflexivity|apply Ascii.eqb_eq in Hp3; subst c; reflexivity]. }
  assert (HQF : no_unsafe (n ++ p ++ Q ++ F) = true).
  { rewrite !no_unsafe_app, Hn1, Hp1, HQ1, HF; reflexivity. }
  assert (Hnp : no_unsafe (n ++ p) = true).
  { rewrite !no_unsafe_app, Hn1, Hp1; reflexivity. }
  assert (HQ0 : match q with None => Q = "" | Some _ => True end)
    by (subst Q; destruct q; reflexivity).
  assert (HF0 : match f with None => F = "" | Some _ => True end)
    by (subst F; destruct f; reflexivity).
  unfold url_of; fold Q F.
  clearbody Q F.
  destruct s as [|c r]; [discriminate|].
  pose proof (scheme_no_unsafe _ Hs) as Hsu.
  pose proof (scheme_no_colon _ Hs) as Hsc.
  assert (E1 : lstrip_c0 (String c r ++ "://" ++ n ++ p ++ Q ++ F) =
               String c r ++ "://" ++ n ++ p ++ Q ++ F).
  { cbn [append lstrip_c0].
    apply andb_true_iff in Hs as [Hc _]; rewrite (alpha_not_c0 _ Hc); reflexivity. }
  assert (E2 : remove_unsafe_bytes (String c r ++ "://" ++ n ++ p ++ Q ++ F) =
               String c r ++ "://" ++ n ++ p ++ Q ++ F).
  { apply remove_unsafe_bytes_id; rewrite no_unsafe_app, Hsu.
    change ("://" ++ n ++ p ++ Q ++ F) with ("://" ++ (n ++ p ++ Q ++ F)).
    rewrite no_unsafe_app, HQF; reflexivity. }
  assert (E3 : split_first ":" (String c r ++ "://" ++ n ++ p ++ Q ++ F) =
               Some (String c r, "//" ++ n ++ p ++ Q ++ F)).
  { change ("://" ++ n ++ p ++ Q ++ F) with (String ":" ("//" ++ n ++ p ++ Q ++ F)).
    apply split_first_app; exact Hsc. }
  assert (R1 : remove_unsafe_bytes (lstrip_c0 ("//" ++ n ++ p)) = "//" ++ n ++ p).
  { cbn [append lstrip_c0]; unfold c0_control_or_space; cbn [nat_of_ascii Nat.leb].
    change (String "/" (String "/" (n ++ p))) with ("//" ++ (n ++ p)).
    apply remove_unsafe_bytes_id; rewrite no_unsafe_app, Hnp; reflexivity. }
  assert (R2 : match split_first ":" ("//" ++ n ++ p) with
               | Some (String c0 _ as pre, post) =>
                   if is_ascii_alpha c0 && forallb is_scheme_char (list_ascii_of_string pre)
                   then (lower pre, post) else ("", "//" ++ n ++ p)
               | _ => ("", "//" ++ n ++ p)
               end = ("", "//" ++ n ++ p)).
  { destruct (split_first ":" ("//" ++ n ++ p)) as [[pre post]|] eqn:S; [|reflexivity].
    destruct (split_first_head ":" "/" _ _ _ eq_refl S) as [rest ->]; reflexivity. }
  unfold urlsplit.
  rewrite E1, E2, E3, R1, R2.
  cbv beta iota.
  unfold valid_scheme in Hs; rewrite Hs.
  cbn [append].
  rewrite (splitnetloc_app n _ Hn2 Hstart), (splitnetloc_app n _ Hn2 Hstart_p).
  rewrite Hsplit_hash, (split_first_none "#" p Hph).
  cbv beta iota.
  (destruct f as [f'|]; [|rewrite HF0, string_app_nil_r]); cbv beta iota;
    rewrite Hsplit_q, (split_first_none "?" p Hpq);
    (destruct q as [q'|]; [|rewrite HQ0, string_app_nil_r]); cbv beta iota;
    repeat match goal with |- context [if ?b then _ else _] => destruct b end;
    reflexivity.
Qed.

Lemma locate_loop_error f l e :
  locate_loop f l = inl e -> is_Exception e = false -> waits_raise_Exception l = false.
Proof.
  revert f; induction l as [|w l IH]; intros f H Hx; simpl in *; [discriminate|].
  destruct w as [|el [|]|e'].
  - eapply IH; eauto.
  - discriminate.
  - eapply IH; eauto.
  - destruct (locator_loop_catches e') eqn:Hc.
    + rewrite (IH _ H Hx), andb_false_r; reflexivity.
    + inversion H; subst. rewrite Hx; reflexivity.
Qed.

(** The body of [process_url] either returns one of the results the
    source builds, or raises an exception that is an [Exception] or comes
    from a browser call raising a non-[Exception]. *)
Definition body_result (output_dir : string) (result r : Result) : Prop :=
  (exists m, r = with_error result m /\ failure_message m) \/
  (exists name, r = mkResult (r_url result) Success
                             (Some (output_dir ++ "/" ++ name ++ ".png"))
                             (r_error result) (r_timestamp result)).

Ltac flow_step H :=
  lazymatch type of H with
  | flow_bind (driver ?o) _ = _ => destruct o eqn:?; cbn [flow_bind driver] in H
  | driver ?o = _ => destruct o eqn:?; cbn [driver] in H
  | flow_bind (lift_exn ?x) _ = _ => destruct x eqn:?; cbn [flow_bind lift_exn] in H
  | flow_bind (match ?o with _ => _ end) _ = _ => destruct o eqn:?; cbn [flow_bind] in H
  | (match ?o with _ => _ end) = _ => destruct o eqn:?; cbn [flow_bind] in H
  | flow_bind (if ?b then _ else _) _ = _ => destruct b eqn:?; cbn [flow_bind] in H
  | (if ?b then _ else _) = _ => destruct b eqn:?; cbn [flow_bind] in H
  end.

Ltac not_interrupt_free :=
  unfold interrupt_free;
  repeat match goal with
         | E : ?f ?env = Some ?e, X : is_Exception ?e = false |- _ =>
             rewrite E; cbn [raises_Exception]; rewrite X; clear E
         | E : resolve (?f ?env) = inl ?e, X : is_Exception ?e = false |- _ =>
             rewrite (locate_loop_error _ _ _ E X); clear E
         end;
  rewrite ?andb_false_r, ?andb_false_l; reflexivity.

Lemma email_form_cases result env :
  match handle_email_form result (email_form result env) with
  | Raise e => is_Exception e = false -> interrupt_free env = false
  | Return r => exists m, r = with_error result m /\ failure_message m
  | Next _ => True
  end.
Proof.
  destruct (email_form result env) as [e|r|[]] eqn:E; cbn [handle_email_form];
    unfold email_form in E.
  - destruct (is_Exception e) eqn:Hx.
    + eexists; split; [reflexivity|]. right; left; eauto.
    + intros _. repeat flow_step E; try discriminate;
        injection E as <-; not_interrupt_free.
  - repeat flow_step E; try discriminate; injection E as <-;
      eexists; (split; [reflexivity|]); left; simpl; tauto.
  - exact I.
Qed.

Lemma process_url_body_cases output_dir url result env :
  (forall r, process_url_body slugify check_bracketed_netloc checknetloc
               output_dir url result env = Return r -> body_result output_dir result r) /\
  (forall e, process_url_body slugify check_bracketed_netloc checknetloc
               output_dir url result env = Raise e ->
             is_Exception e = false -> interrupt_free env = false).
Proof.
  split; [intros r H | intros e H Hx]; unfold process_url_body in H;
    repeat (flow_step H ||
            lazymatch type of H with
            | flow_bind (handle_email_form ?res (email_form ?res ?env)) _ = _ =>
                let HE := fresh "HE" in
                pose proof (email_form_cases res env) as HE;
                destruct (handle_email_form res (email_form res env));
                cbn [flow_bind] in H
            end);
    try discriminate; try (injection H as <-).
  all: first
    [ solve [left; eauto]
    | solve [right; eexists; reflexivity]
    | solve [left; eexists; split; [reflexivity|]; left; simpl; tauto]
    | solve [apply HE; assumption]
    | solve [rewrite (sanitize_error_is_Exception _ _ ltac:(eassumption)) in Hx;
             discriminate]
    | not_interrupt_free ].
Qed.

Lemma process_url_shape output_dir ts url env :
  match process_url slugify check_bracketed_netloc checknetloc output_dir ts url env with
  | Returned r => result_shape output_dir ts url r
  | Raised e => is_Exception e = false /\ interrupt_free env = false
  end.
Proof.
  unfold process_url.
  set (result := mkResult url Failed None None ts).
  destruct (process_url_body_cases output_dir url result env) as [HR HE].
  destruct (process_url_body _ _ _ output_dir url result env) as [e|r|[]] eqn:B.
  - destruct (is_Exception e) eqn:X.
    + repeat split; right; repeat split; eexists; split; [reflexivity|].
      right; right; eexists; reflexivity.
    + exact (conj X (HE e eq_refl X)).
  - destruct (HR r eq_refl) as [[m [-> Hm]] | [name ->]].
    + split; [reflexivity|split; [reflexivity|]].
      right; split; [reflexivity|split; [reflexivity|]]; exists m; auto.
    + split; [reflexivity|split; [reflexivity|]].
      left; split; [reflexivity|split; [reflexivity|]]; exists name; reflexivity.
Qed.

(** ** C4: success carries a path, failure carries an error *)

(** C4: every result that [process_url] returns has a non-null
    [screenshot_path] when its status is success and a non-null [error]
    when its status is failed. *)
Theorem process_url_result_invariant output_dir ts url env r
  (H : process_url slugify check_bracketed_netloc checknetloc output_dir ts url env
       = Returned r) :
  (r_status r = Success -> r_screenshot_path r <> None) /\
  (r_status r = Failed -> r_error r <> None).
Proof.
  pose proof (process_url_shape output_dir ts url env) as S; rewrite H in S.
  destruct S as (_ & _ & [(Hs & _ & name & Hp) | (Hs & _ & m & He & _)]);
    rewrite Hs; split; intro Hst; try discriminate.
  - rewrite Hp; discriminate.
  - rewrite He; discriminate.
Qed.

(** ** C3: exceptions become failed results *)

Lemma point_exn_is_Exception url p env e :
  interrupt_free env = true -> point_exn sanitize url p env = Some e -> is_Exception e = true.
Proof.
  unfold interrupt_free; intros Hfree He.
  repeat match type of Hfree with
         | (_ && _) = true => apply andb_true_iff in Hfree as [Hfree ?]
         end.
  assert (W : forall l, waits_raise_Exception l = true -> wait_exn (resolve l) = Some e ->
                        is_Exception e = true).
  { intros l Hl Hw; unfold wait_exn in Hw.
    destruct (resolve l) as [e'|] eqn:R; [injection Hw as <-|discriminate].
    destruct (is_Exception e') eqn:X; [reflexivity|].
    rewrite (locate_loop_error _ _ _ R X) in Hl; discriminate. }
  assert (D : forall o, raises_Exception o = true -> o = Some e -> is_Exception e = true)
    by (intros o Ho ->; exact Ho).
  destruct p; cbn [point_exn] in He; eauto.
  - destruct (sanitize url) as [e'|] eqn:S; [injection He as <-|discriminate].
    exact (sanitize_error_is_Exception url e' S).
  - destruct (e_popup env) as [e'|] eqn:P; [|discriminate].
    destruct (locator_loop_catches e'); [discriminate|injection He as <-].
    match goal with H : raises_Exception (Some e') = true |- _ => exact H end.
Qed.

Ltac gate_hyps :=
  repeat match goal with
         | H : (_ && _) = true |- _ => apply andb_true_iff in H as [? ?]
         | H : Some _ = Some _ |- _ => injection H as H; subst
         | H : context [match ?x with _ => _ end] |- _ =>
             lazymatch type of H with
             | interrupt_free _ = _ => fail
             | _ => destruct x eqn:?; try discriminate H
             end
         | H : context [if ?x then _ else _] |- _ => destruct x eqn:?; try discriminate H
         end.

Ltac rewrite_gates :=
  cbn [flow_bind driver lift_exn];
  repeat (match goal with
          | E : ?x = _ |- context [?x] => progress rewrite E
          end; cbn [flow_bind driver lift_exn]).

(** An exception raised at point [p], once execution reaches [p], is
    caught: by the email-form handler inside its [try], by the outer
    handler elsewhere. *)
Lemma process_url_point_raises output_dir ts url env p e
  (Hfree : interrupt_free env = true)
  (Hreach : reaches_point sanitize url p env = true)
  (Hexn : point_exn sanitize url p env = Some e) :
  process_url slugify check_bracketed_netloc checknetloc output_dir ts url env
    = Returned (with_error (mkResult url Failed None None ts) (handler_prefix p ++ exn_str e)).
Proof.
  pose proof (point_exn_is_Exception url p env e Hfree Hexn) as X; clear Hfree.
  unfold process_url, process_url_body, handle_email_form, email_form.
  unfold reaches_point in Hreach.
  destruct p; cbn [point_rank all_points firstn forallb point_passes point_exn found wait_exn
                   handler_prefix in_email_block] in Hreach, Hexn |- *;
    unfold wait_exn, found in Hreach, Hexn; gate_hyps; rewrite_gates; rewrite ?X; reflexivity.
Qed.

(** C3 (as amended): when no browser call raises a non-[Exception] (such
    as [KeyboardInterrupt]), [process_url] returns a result and does not
    raise; a failed result's error is one of the four not-found messages,
    ["Failed to handle email form: <detail>"] or
    ["Unexpected error: <detail>"]; and whichever call raises an exception
    first, at whatever point [p] of the workflow, the result is the failed
    result whose error is ["Failed to handle email form: " ++ str(e)] when
    [p] lies inside the email-form [try] and ["Unexpected error: " ++ str(e)]
    otherwise. *)
Theorem process_url_catches_Exception output_dir ts url env
  (Hfree : interrupt_free env = true) :
  exists r,
    process_url slugify check_bracketed_netloc checknetloc output_dir ts url env
      = Returned r /\
    (r_status r = Failed -> exists m, r_error r = Some m /\ failure_message m) /\
    (forall p e,
       reaches_point (sanitize_filename slugify check_bracketed_netloc checknetloc) url p env = true ->
       point_exn (sanitize_filename slugify check_bracketed_netloc checknetloc) url p env = Some e ->
       r = with_error (mkResult url Failed None None ts) (handler_prefix p ++ exn_str e)).
Proof.
  pose proof (process_url_shape output_dir ts url env) as S.
  destruct (process_url _ _ _ output_dir ts url env) as [r|e] eqn:P.
  - exists r; split; [reflexivity|split].
    + destruct S as (_ & _ & [(Hs & _) | (_ & _ & m & He & Hm)]); intro Hst.
      * rewrite Hs in Hst; discriminate.
      * eauto.
    + intros p e Hr He.
      rewrite (process_url_point_raises output_dir ts url env p e Hfree Hr He) in P.
      injection P as <-; reflexivity.
  - destruct S as [_ S]; rewrite S in Hfree; discriminate.
Qed.

(** ** C5: the four mandatory locator steps *)

(** C5: when every step before mandatory step [k] succeeded and the
    locator loop of step [k] finds nothing, [process_url] returns a failed
    result whose error is the message of step [k]; the four messages are
    pairwise distinct, the URL-input one mentions the input field and the
    submit one the submit control. *)
Theorem mandatory_step_not_found output_dir ts url env k
  (Hreach : reaches sanitize url k env = true)
  (Hnone : resolve (step_chain k env) = inr None) :
  process_url slugify check_bracketed_netloc checknetloc output_dir ts url env
    = Returned (with_error (mkResult url Failed None None ts) (step_msg k)) /\
  (forall k', step_msg k' = step_msg k -> k' = k) /\
  contains "input field" (step_msg StepUrlInput) = true /\
  contains "submit" (step_msg StepSubmit) = true.
Proof.
  split; [|split; [|split; reflexivity]].
  - unfold reaches in Hreach.
    destruct (e_open env) eqn:Ho; [destruct k; discriminate|].
    destruct (sanitize url) eqn:Hs; [destruct k; discriminate|].
    destruct (e_initial_shot env) eqn:Hi; [destruct k; discriminate|].
    unfold process_url, process_url_body.
    rewrite Ho, Hs, Hi; cbn [flow_bind driver lift_exn].
    destruct k; cbn [step_chain] in Hnone.
    + rewrite Hnone; reflexivity.
    + destruct (resolve (e_url_input env)) as [|[|]] eqn:R1; try discriminate.
      destruct (e_fill_url env) eqn:F1; try discriminate.
      rewrite Hnone; reflexivity.
    + destruct (resolve (e_url_input env)) as [|[|]] eqn:R1; try discriminate.
      destruct (e_fill_url env) eqn:F1; try discriminate.
      destruct (resolve (e_submit env)) as [|[|]] eqn:R2; try discriminate.
      destruct (e_click_submit env) eqn:F2; try discriminate.
      cbn [flow_bind driver lift_exn].
      unfold email_form; rewrite Hnone; reflexivity.
    + destruct (resolve (e_url_input env)) as [|[|]] eqn:R1; try discriminate.
      destruct (e_fill_url env) eqn:F1; try discriminate.
      destruct (resolve (e_submit env)) as [|[|]] eqn:R2; try discriminate.
      destruct (e_click_submit env) eqn:F2; try discriminate.
      destruct (resolve (e_email_input env)) as [|[|]] eqn:R3; try discriminate.
      destruct (e_fill_email env) eqn:F3; try discriminate.
      cbn [flow_bind driver lift_exn].
      unfold email_form; rewrite R3, F3, Hnone; reflexivity.
  - intros [] H; destruct k; try reflexivity; discriminate H.
Qed.

(** ** The batch loop *)

Lemma url_loop_state output_dir benv i urls results successful failed st :
  snd (url_loop slugify check_bracketed_netloc checknetloc output_dir benv i urls
         results successful failed st) = st.
Proof.
  revert i results successful failed.
  induction urls as [|url rest IH]; intros i results successful failed; [reflexivity|].
  cbn [url_loop]; unfold mbind, call.
  destruct (process_url _ _ _ _ _ _ _) as [r|e]; [|reflexivity].
  destruct (match r_status r with
            | Success => (app successful [url], failed)
            | Failed => (successful, app failed [url]) end) as [s f].
  destruct (b_pause benv i); [reflexivity|].
  apply IH.
Qed.

Lemma url_loop_complete output_dir benv i urls results successful failed st
  (Hitems : forall j, interrupt_free (b_item benv j) = true)
  (Hpause : forall j, b_pause benv j = None) :
  exists rs s' f',
    url_loop slugify check_bracketed_netloc checknetloc output_dir benv i urls
      results successful failed st
      = (Returned (app results rs, app successful s', app failed f'), st) /\
    map r_url rs = urls /\ List.length s' + List.length f' = List.length urls.
Proof.
  revert i results successful failed.
  induction urls as [|url rest IH]; intros i results successful failed.
  - exists [], [], []; rewrite !app_nil_r; auto.
  - cbn [url_loop]; unfold mbind, call.
    pose proof (process_url_shape (output_dir ++ "/screenshots") (b_item_ts benv i) url
                                  (b_item benv i)) as S.
    destruct (process_url _ _ _ _ _ _ _) as [r|e].
    2: { destruct S as [_ S]; rewrite Hitems in S; discriminate. }
    destruct S as [Hurl _].
    rewrite Hpause.
    destruct (r_status r).
    + destruct (IH (S i) (app results [r]) (app successful [url]) failed)
        as (rs & s' & f' & E & Hm & Hl).
      exists (r :: rs), (url :: s'), f'.
      cbn [ret]; rewrite E, <- !app_assoc; split; [reflexivity|].
      split; [simpl; congruence|simpl; lia].
    + destruct (IH (S i) (app results [r]) successful (app failed [url]))
        as (rs & s' & f' & E & Hm & Hl).
      exists (r :: rs), s', (url :: f').
      cbn [ret]; rewrite E, <- !app_assoc; split; [reflexivity|].
      split; [simpl; congruence|simpl; lia].
Qed.

(** What the body of [process_csv] does to the object: it starts at most
    one session (and keeps it in [self.driver]), quits none, and writes
    [results.csv] only on its way to [return]. *)
Lemma process_csv_body_effect output_dir benv st0 :
  let '(o, st1) :=
    process_csv_body slugify check_bracketed_netloc checknetloc output_dir benv st0 in
  st_quit st1 = st_quit st0 /\
  ((st_started st1 = st_started st0 /\ st_driver st1 = st_driver st0) \/
   (exists id, st_started st1 = id :: st_started st0 /\ st_driver st1 = Some id)) /\
  (forall e, o = Raised e -> st_results_csv st1 = st_results_csv st0).
Proof.
  unfold process_csv_body, mbind, ret, raise.
  destruct (b_read_csv benv) as [e|[ncols urls]]; [auto|].
  destruct (Nat.eqb ncols 0); [auto|].
  destruct urls as [|u us]; [auto|].
  unfold setup_driver, mbind, call, modify, ret, raise.
  destruct (b_chrome benv); [auto|].
  set (id := List.length (st_started st0)).
  destruct (b_page_load_timeout benv).
  - split; [reflexivity|split; [right; exists id; auto|auto]].
  - match goal with
    | |- context [url_loop ?a ?b ?c ?d ?e ?f ?g ?h ?i ?j ?st] =>
        pose proof (url_loop_state d e f g h i j st) as L;
        destruct (url_loop a b c d e f g h i j st) as [[[[rs sc] fl]|e'] st'];
        cbn in L; subst st'
    end.
    + destruct (b_write_results benv); cbn.
      * split; [reflexivity|split; [right; exists id; auto|auto]].
      * split; [reflexivity|split; [right; exists id; auto|]].
        intros e' H'; discriminate.
    + split; [reflexivity|split; [right; exists id; auto|auto]].
Qed.

Lemma cleanup_effect st :
  snd (cleanup st) = mkBState None (st_started st)
                       (match st_driver st with Some d => d :: st_quit st
                                           | None => st_quit st end)
                       (st_results_csv st) /\
  fst (cleanup st) = Returned tt.
Proof.
  unfold cleanup; destruct st as [[d|] started quit res]; auto.
Qed.

(** ** C6: the session is released on every exit path *)

(** C6: starting from an object without a live driver (as [__init__] and
    every earlier [process_csv] leave it), after [process_csv] returns or
    raises (an exception from any browser call, a [KeyboardInterrupt] in
    the middle of a URL, a failing [read_csv] or [to_csv]),
    [self.driver] is [None] and every session started by the call has
    been quit; when the call raises, [results.csv] has not been written. *)
Theorem process_csv_releases_session output_dir benv st0
  (Hfresh : st_driver st0 = None) :
  let '(o, st) :=
    process_csv slugify check_bracketed_netloc checknetloc output_dir benv st0 in
  st_driver st = None /\
  (forall d, In d (st_started st) -> ~ In d (st_started st0) -> In d (st_quit st)) /\
  (forall e, o = Raised e -> st_results_csv st = st_results_csv st0).
Proof.
  unfold process_csv, mbind, call, raise, ret.
  destruct (b_mkdir benv).
  - split; [exact Hfresh|split; [intros d Hin Hnot; contradiction|auto]].
  - unfold try_finally.
    pose proof (process_csv_body_effect output_dir benv st0) as E.
    destruct (process_csv_body _ _ _ output_dir benv st0) as [o st1].
    destruct E as (Hq & Hs & Hr).
    destruct (cleanup_effect st1) as [C1 C2].
    destruct (cleanup st1) as [c st2]; cbn in C1, C2; subst c st2.
    cbn. split; [reflexivity|split].
    + intros d Hin Hnot.
      destruct Hs as [[Hs Hd] | [id [Hs Hd]]]; rewrite Hs in Hin; [contradiction|].
      rewrite Hd; destruct Hin as [<-|Hin]; [left; reflexivity|contradiction].
    + exact Hr.
Qed.

(** ** C1: one result per URL *)

(** C1: for a CSV whose first column holds a non-empty list [urls], when
    the session starts, no [KeyboardInterrupt] arrives and [results.csv] is
    written, [process_csv] returns [(successful, failed)] with
    [len(successful) + len(failed) = len(urls)], and the results written
    are one per URL, in the order of [urls]. *)
Theorem process_csv_one_result_per_url output_dir benv ncols urls st0
  (Hmkdir : b_mkdir benv = None)
  (Hread : b_read_csv benv = inr (ncols, urls))
  (Hcols : ncols <> 0)
  (Hne : urls <> [])
  (Hchrome : b_chrome benv = None)
  (Htimeout : b_page_load_timeout benv = None)
  (Hitems : forall i, interrupt_free (b_item benv i) = true)
  (Hpause : forall i, b_pause benv i = None)
  (Hwrite : b_write_results benv = None) :
  exists successful failed st rs,
    process_csv slugify check_bracketed_netloc checknetloc output_dir benv st0
      = (Returned (successful, failed), st) /\
    st_results_csv st = Some rs /\
    map r_url rs = urls /\
    List.length successful + List.length failed = List.length urls.
Proof.
  unfold process_csv, mbind, call; rewrite Hmkdir; cbn [ret].
  unfold try_finally, process_csv_body, mbind, ret; rewrite Hread.
  destruct (Nat.eqb_spec ncols 0) as [|_]; [contradiction|].
  destruct urls as [|u us]; [contradiction|].
  unfold setup_driver, mbind, call, modify, ret; rewrite Hchrome, Htimeout.
  match goal with
  | |- context [url_loop ?a ?b ?c ?d ?e ?f ?g ?h ?i ?j ?st] =>
      destruct (url_loop_complete d e f g h i j st Hitems Hpause)
        as (rs & s' & f' & L & Hm & Hl);
      rewrite L
  end.
  rewrite Hwrite; cbn.
  do 4 eexists; split; [reflexivity|].
  cbn; split; [reflexivity|]. split; assumption.
Qed.

(** ** C9: empty input *)

(** C9: when the first column of the CSV is empty, [process_csv] returns
    [([], [])] and starts no session. *)
Theorem process_csv_empty_input output_dir benv ncols st0
  (Hmkdir : b_mkdir benv = None)
  (Hread : b_read_csv benv = inr (ncols, []))
  (Hcols : ncols <> 0) :
  fst (process_csv slugify check_bracketed_netloc checknetloc output_dir benv st0)
    = Returned ([], []) /\
  st_started (snd (process_csv slugify check_bracketed_netloc checknetloc
                     output_dir benv st0)) = st_started st0.
Proof.
  unfold process_csv, mbind, call; rewrite Hmkdir; cbn [ret].
  unfold try_finally, process_csv_body, mbind, ret; rewrite Hread.
  destruct (Nat.eqb_spec ncols 0) as [|_]; [contradiction|].
  destruct (cleanup_effect st0) as [C1 C2].
  destruct (cleanup st0) as [c st2]; cbn in C1, C2; subst c st2.
  split; reflexivity.
Qed.

(** ** C10: what the file name depends on *)

(** C10 (as amended): two URLs built from the same netloc and path give
    the same [sanitize_filename] result whatever their query strings and
    fragments, and whatever their schemes as long as both schemes are in
    [uses_params] or both are outside it (or the path holds no [';']). *)
Theorem sanitize_filename_ignores_query_fragment s1 s2 n p q1 q2 f1 f2
  (Hs1 : valid_scheme s1 = true) (Hs2 : valid_scheme s2 = true)
  (Hn : netloc_part n = true) (Hp : path_part p = true)
  (Hq1 : query_part q1 = true) (Hq2 : query_part q2 = true)
  (Hf1 : fragment_part f1 = true) (Hf2 : fragment_part f2 = true)
  (Hparams : in_uses_params s1 = in_uses_params s2 \/ char_in ";" p = false) :
  sanitize (url_of s1 n p q1 f1) = sanitize (url_of s2 n p q2 f2).
Proof.
  unfold sanitize_filename, urlparse.
  rewrite !urlsplit_url_of by assumption.
  destruct (urlsplit check_bracketed_netloc checknetloc ("//" ++ n ++ p)); [reflexivity|].
  cbv beta iota.
  unfold in_uses_params in Hparams.
  destruct Hparams as [E|E].
  - rewrite E; destruct (_ && _); [destruct (splitparams p)|]; reflexivity.
  - rewrite E, !andb_false_r; reflexivity.
Qed.

(** ** C7: [sanitize_filename] is a function of the URL, at most 100 long *)

Lemma substring_length_le n s : String.length (substring 0 n s) <= n.
Proof.
  revert s; induction n as [|n IH]; intros [|c s]; cbn; try lia.
  specialize (IH s); lia.
Qed.

(** C7: equal URLs give equal results (the function reads nothing but its
    argument), and every file name it returns has at most 100 characters. *)
Theorem sanitize_filename_deterministic_bounded url1 url2 (Heq : url1 = url2) :
  sanitize_filename slugify check_bracketed_netloc checknetloc url1 =
  sanitize_filename slugify check_bracketed_netloc checknetloc url2 /\
  match sanitize_filename slugify check_bracketed_netloc checknetloc url1 with
  | inr name => String.length name <= 100
  | inl _ => True
  end.
Proof.
  subst url2; split; [reflexivity|].
  unfold sanitize_filename.
  destruct (urlparse check_bracketed_netloc checknetloc url1) as [e|parsed]; [exact I|].
  cbv beta iota zeta.
  destruct (Nat.ltb_spec 100 (String.length (slugify (pr_netloc parsed ++
              replace_char "/" "_" (pr_path parsed))))) as [H|H].
  - apply substring_length_le.
  - exact H.
Qed.

(** ** Further properties of [process_url] *)

Lemma handle_email_form_next result env u :
  handle_email_form result (email_form result env) = Next u ->
  found (resolve (e_email_input env)) = true /\ found (resolve (e_final_submit env)) = true.
Proof.
  destruct (email_form result env) as [e|r|v] eqn:E; cbn [handle_email_form].
  - destruct (is_Exception e); discriminate.
  - discriminate.
  - intros _; unfold email_form in E; repeat flow_step E; try discriminate; subst.
    split; reflexivity.
Qed.

(** X6: [process_url] reports success only when the file name could be
    computed, all four mandatory elements were found and the screenshot
    was taken; the success carries the path [output_dir/name.png] and no
    error. *)
Theorem process_url_success_requires output_dir ts url env r
  (H : process_url slugify check_bracketed_netloc checknetloc output_dir ts url env
       = Returned r)
  (Hs : r_status r = Success) :
  exists name,
    sanitize url = inr name /\
    r_screenshot_path r = Some (output_dir ++ "/" ++ name ++ ".png") /\
    r_error r = None /\
    found (resolve (e_url_input env)) = true /\
    found (resolve (e_submit env)) = true /\
    found (resolve (e_email_input env)) = true /\
    found (resolve (e_final_submit env)) = true /\
    e_capture env = None.
Proof.
  unfold process_url in H.
  destruct (process_url_body _ _ _ output_dir url _ env) as [e|r'|[]] eqn:B.
  - destruct (is_Exception e); [|discriminate].
    injection H as <-; discriminate.
  - injection H as ->.
    unfold process_url_body in B;
      repeat (flow_step B ||
              lazymatch type of B with
              | flow_bind (handle_email_form ?res (email_form ?res ?env)) _ = _ =>
                  let HE := fresh "HE" in
                  destruct (handle_email_form res (email_form res env)) eqn:HE;
                  cbn [flow_bind] in B
              end);
      try discriminate; injection B as <-; try discriminate; subst.
    all: match type of HE with
         | handle_email_form ?res (email_form ?res ?env) = Return _ =>
             pose proof (email_form_cases res env) as EC; rewrite HE in EC;
             destruct EC as (m & -> & _); discriminate
         | _ => idtac
         end.
    all: destruct (handle_email_form_next _ _ _ HE) as [He1 He2].
    all: eexists; split; [reflexivity|].
    all: repeat split; try reflexivity; assumption.
Qed.

(** X7: when the page opens but [sanitize_filename] raises (an invalid
    URL), the result is failed with ["Unexpected error: "] and the
    exception text, and carries no screenshot path. *)
Theorem process_url_sanitize_error output_dir ts url env e
  (Hopen : e_open env = None) (He : sanitize url = inl e) :
  process_url slugify check_bracketed_netloc checknetloc output_dir ts url env =
  Returned (with_error (mkResult url Failed None None ts) ("Unexpected error: " ++ exn_str e)).
Proof.
  unfold process_url, process_url_body.
  rewrite Hopen; cbn [driver flow_bind]; rewrite He; cbn [lift_exn flow_bind].
  rewrite (sanitize_error_is_Exception url e He); reflexivity.
Qed.

(** X8: a popup wait that times out or finds nothing changes nothing:
    the outcome of [process_url] is the one it has when closing the popup
    succeeds. *)
Theorem process_url_popup_ignored output_dir ts url env e
  (Hpopup : e_popup env = Some e) (Hcaught : locator_loop_catches e = true) :
  process_url slugify check_bracketed_netloc checknetloc output_dir ts url env =
  process_url slugify check_bracketed_netloc checknetloc output_dir ts url
              (with_popup env None).
Proof.
  destruct env; cbn in Hpopup; subst e_popup0.
  unfold process_url, process_url_body, with_popup; cbn [e_popup].
  rewrite Hcaught; reflexivity.
Qed.

(** ** Further properties of [process_csv] *)

Lemma url_loop_returned output_dir benv urls : forall i results s f st R S F st',
  url_loop slugify check_bracketed_netloc checknetloc output_dir benv i urls results s f st
    = (Returned (R, S, F), st') ->
  exists rs,
    R = app results rs /\
    map Returned rs = run_items slugify check_bracketed_netloc checknetloc output_dir benv i urls /\
    S = app s (map r_url (filter is_success rs)) /\
    F = app f (map r_url (filter (fun r => negb (is_success r)) rs)).
Proof.
  induction urls as [|url rest IH]; intros i results s f st R S F st' H.
  - injection H as -> -> -> _; exists []; rewrite !app_nil_r; auto.
  - cbn [url_loop] in H; unfold mbind, call in H.
    destruct (process_url _ _ _ _ _ _ _) as [r|e] eqn:Hr; [|discriminate].
    pose proof (process_url_shape (output_dir ++ "/screenshots") (b_item_ts benv i) url
                                  (b_item benv i)) as Sh.
    rewrite Hr in Sh; destruct Sh as [Hurl _].
    destruct (r_status r) eqn:Hst; cbv beta iota in H;
      (destruct (b_pause benv i); [discriminate|]); cbn [ret] in H;
      destruct (IH _ _ _ _ _ _ _ _ _ H) as (rs & -> & Hm & -> & ->);
      exists (r :: rs); cbn [run_items map filter];
      [assert (Hs : is_success r = true) | assert (Hs : is_success r = false)];
      try (unfold is_success; rewrite Hst; reflexivity);
      rewrite Hs; cbn [negb map]; rewrite Hm, <- Hr, Hurl, <- !app_assoc; auto.
Qed.

Lemma process_csv_returned output_dir benv st0 st ncols urls successful failed
  (Hread : b_read_csv benv = inr (ncols, urls)) (Hne : urls <> [])
  (Hrun : process_csv slugify check_bracketed_netloc checknetloc output_dir benv st0
          = (Returned (successful, failed), st)) :
  exists rs,
    st_results_csv st = Some rs /\
    map Returned rs = run_items slugify check_bracketed_netloc checknetloc output_dir benv 0 urls /\
    successful = map r_url (filter is_success rs) /\
    failed = map r_url (filter (fun r => negb (is_success r)) rs).
Proof.
  unfold process_csv, mbind, call in Hrun.
  destruct (b_mkdir benv); [discriminate|]; cbn [ret] in Hrun.
  unfold try_finally in Hrun.
  destruct (process_csv_body _ _ _ output_dir benv st0) as [o st2] eqn:B.
  destruct (cleanup_effect st2) as [C1 C2].
  destruct (cleanup st2) as [c st3]; cbn in C1, C2; subst c st3.
  injection Hrun as -> <-; cbn [st_results_csv].
  unfold process_csv_body, mbind, ret, raise in B; rewrite Hread in B.
  destruct (Nat.eqb ncols 0); [discriminate|].
  destruct urls as [|u us]; [contradiction|].
  unfold setup_driver, mbind, call, modify, ret, raise in B.
  destruct (b_chrome benv); [discriminate|].
  destruct (b_page_load_timeout benv); [discriminate|].
  match type of B with
  | context [url_loop ?a ?b ?c ?d ?e ?f ?g ?h ?i ?j ?st] =>
      destruct (url_loop a b c d e f g h i j st) as [[[[R S] F]|e'] st'] eqn:L
  end; [|discriminate].
  destruct (b_write_results benv); [discriminate|].
  injection B as -> B; subst st2; cbn [st_results_csv].
  destruct (url_loop_returned _ _ _ _ _ _ _ _ _ _ _ _ L) as (rs & -> & Hm & -> & ->).
  exists rs; cbn [st_results_csv app]; repeat split; try reflexivity; try assumption; rewrite <- B; reflexivity.
Qed.

(** X9: when [process_csv] returns for a non-empty URL column, the
    results written are the [process_url] results of the URLs in order,
    and [successful] and [failed] list the URLs of the successful and of
    the failed results, in that order. *)
Theorem process_csv_results_in_order output_dir benv st0 st ncols urls successful failed
  (Hread : b_read_csv benv = inr (ncols, urls)) (Hne : urls <> [])
  (Hrun : process_csv slugify check_bracketed_netloc checknetloc output_dir benv st0
          = (Returned (successful, failed), st)) :
  exists rs,
    st_results_csv st = Some rs /\
    map Returned rs = run_items slugify check_bracketed_netloc checknetloc output_dir benv 0 urls /\
    successful = map r_url (filter is_success rs) /\
    failed = map r_url (filter (fun r => negb (is_success r)) rs).
Proof. exact (process_csv_returned output_dir benv st0 st ncols urls successful failed Hread Hne Hrun). Qed.

Lemma run_items_urls output_dir benv urls : forall i rs,
  map Returned rs = run_items slugify check_bracketed_netloc checknetloc output_dir benv i urls ->
  map r_url rs = urls.
Proof.
  induction urls as [|url rest IH]; intros i rs H; destruct rs as [|r rs]; try discriminate;
    [reflexivity|].
  cbn in H; injection H as Hr Hm.
  pose proof (process_url_shape (output_dir ++ "/screenshots") (b_item_ts benv i) url
                (b_item benv i)) as Sh.
  rewrite <- Hr in Sh; destruct Sh as [Hu _].
  cbn; rewrite Hu, (IH (S i) rs Hm); reflexivity.
Qed.

Lemma filter_split_Permutation {A B} (f : A -> B) (p : A -> bool) l :
  Permutation (map f (filter p l) ++ map f (filter (fun x => negb (p x)) l)) (map f l).
Proof.
  induction l as [|a l IH]; [constructor|]; cbn.
  destruct (p a); cbn.
  - constructor; exact IH.
  - apply Permutation_sym, Permutation_cons_app, Permutation_sym; exact IH.
Qed.

(** X10: when [process_csv] returns [(successful, failed)], every URL of
    the CSV column is in exactly one of the two lists (their concatenation
    is a permutation of the URLs), so [main]'s total equals the number of
    URLs. *)
Theorem process_csv_partitions_urls output_dir benv st0 st ncols urls successful failed
  (Hread : b_read_csv benv = inr (ncols, urls))
  (Hrun : process_csv slugify check_bracketed_netloc checknetloc output_dir benv st0
          = (Returned (successful, failed), st)) :
  Permutation (app successful failed) urls /\
  List.length successful + List.length failed = List.length urls.
Proof.
  assert (P : Permutation (app successful failed) urls).
  { destruct urls as [|u us].
    - unfold process_csv, mbind, call in Hrun.
      destruct (b_mkdir benv); [discriminate|]; cbn [ret] in Hrun.
      unfold try_finally, process_csv_body, mbind, ret, raise in Hrun; rewrite Hread in Hrun.
      destruct (Nat.eqb ncols 0); [destruct (cleanup st0) as [[] ?]; discriminate|].
      destruct (cleanup_effect st0) as [_ C]; destruct (cleanup st0) as [c st1].
      cbn in C; subst c; injection Hrun as <- <- _; apply Permutation_refl.
    - destruct (process_csv_returned output_dir benv st0 st ncols (u :: us) successful failed
                  Hread ltac:(discriminate) Hrun) as (rs & _ & Hm & -> & ->).
      rewrite <- (run_items_urls _ _ _ _ _ Hm).
      apply filter_split_Permutation. }
  split; [exact P|].
  rewrite <- length_app; exact (Permutation_length P).
Qed.

(** X11: [process_csv] starts at most one browser session, and only when
    the screenshot directory was made, the CSV has a column holding at
    least one URL and [webdriver.Chrome] succeeded. *)
Theorem process_csv_sessions_started output_dir benv st0 :
  let '(o, st) :=
    process_csv slugify check_bracketed_netloc checknetloc output_dir benv st0 in
  st_started st = st_started st0 \/
  exists ncols u us,
    b_mkdir benv = None /\ b_read_csv benv = inr (ncols, u :: us) /\ ncols <> 0 /\
    b_chrome benv = None /\
    st_started st = List.length (st_started st0) :: st_started st0.
Proof.
  unfold process_csv, mbind, call.
  destruct (b_mkdir benv) eqn:Hm; [left; reflexivity|]; cbn [ret].
  unfold try_finally.
  destruct (process_csv_body _ _ _ output_dir benv st0) as [o st2] eqn:B.
  destruct (cleanup_effect st2) as [C1 C2].
  destruct (cleanup st2) as [c st3]; cbn in C1, C2; subst c st3; cbn [st_started].
  unfold process_csv_body, mbind, ret, raise in B.
  destruct (b_read_csv benv) as [e|[ncols urls]] eqn:Hr;
    [injection B as _ <-; left; reflexivity|].
  destruct (Nat.eqb ncols 0) eqn:Hc; [injection B as _ <-; left; reflexivity|].
  destruct urls as [|u us]; [injection B as _ <-; left; reflexivity|].
  unfold setup_driver, mbind, call, modify, ret, raise in B.
  destruct (b_chrome benv) eqn:Hch; [injection B as _ <-; left; reflexivity|].
  right; exists ncols, u, us.
  split; [reflexivity|split; [reflexivity|split; [apply Nat.eqb_neq, Hc|split; [reflexivity|]]]].
  destruct (b_page_load_timeout benv); [injection B as _ <-; reflexivity|].
  match type of B with
  | context [url_loop ?a ?b ?c ?d ?e ?f ?g ?h ?i ?j ?st] =>
      pose proof (url_loop_state d e f g h i j st) as L;
      destruct (url_loop a b c d e f g h i j st) as [[[[R S] F]|e'] st'];
      cbn in L; subst st'
  end.
  - destruct (b_write_results benv); injection B as _ <-; reflexivity.
  - injection B as _ <-; reflexivity.
Qed.

(** X12: the input errors of [process_csv] propagate: a failing [mkdir]
    raises before the [try] (no cleanup), while a failing [read_csv], a
    CSV without columns and a failing [webdriver.Chrome] raise from the
    [try] after [cleanup] ran. *)
Theorem process_csv_input_errors output_dir benv st0 :
  (forall e, b_mkdir benv = Some e ->
     process_csv slugify check_bracketed_netloc checknetloc output_dir benv st0
       = (Raised e, st0)) /\
  (forall e, b_mkdir benv = None -> b_read_csv benv = inl e ->
     process_csv slugify check_bracketed_netloc checknetloc output_dir benv st0
       = (Raised e, snd (cleanup st0))) /\
  (forall urls, b_mkdir benv = None -> b_read_csv benv = inr (0%nat, urls) ->
     process_csv slugify check_bracketed_netloc checknetloc output_dir benv st0
       = (Raised no_columns, snd (cleanup st0))) /\
  (forall ncols u us e, b_mkdir benv = None -> b_read_csv benv = inr (ncols, u :: us) ->
     ncols <> 0 -> b_chrome benv = Some e ->
     process_csv slugify check_bracketed_netloc checknetloc output_dir benv st0
       = (Raised e, snd (cleanup st0))).
Proof.
  unfold process_csv, mbind, call, try_finally, process_csv_body, setup_driver.
  split; [|split; [|split]].
  - intros e He; rewrite He; reflexivity.
  - intros e Hm Hr; rewrite Hm, Hr; cbn [ret raise mbind].
    destruct (cleanup_effect st0) as [_ C]; destruct (cleanup st0) as [c st1]; cbn in C; subst c; reflexivity.
  - intros urls Hm Hr; rewrite Hm, Hr; cbn [ret raise mbind Nat.eqb].
    destruct (cleanup_effect st0) as [_ C]; destruct (cleanup st0) as [c st1]; cbn in C; subst c; reflexivity.
  - intros ncols u us e Hm Hr Hc Hch; rewrite Hm, Hr; cbn [ret raise mbind].
    apply Nat.eqb_neq in Hc; rewrite Hc; unfold mbind, call; rewrite Hch; cbn [raise].
    destruct (cleanup_effect st0) as [_ C]; destruct (cleanup st0) as [c st1]; cbn in C; subst c; reflexivity.
Qed.

End Proofs.

(** ** Parsing and locating *)

Section Extras.
Variable slugify : string -> string.
Variable check_bracketed_netloc : string -> bool.
Variable checknetloc : string -> bool.

Lemma lstrip_c0_app w u : all_c0 w = true -> lstrip_c0 (w ++ u) = lstrip_c0 u.
Proof.
  induction w as [|c w IH]; [reflexivity|].
  unfold all_c0; cbn [list_ascii_of_string forallb append lstrip_c0].
  intros H; apply andb_true_iff in H as [H1 H2]; rewrite H1; exact (IH H2).
Qed.

(** X1: [urlparse] strips leading C0 control characters and spaces, so
    prefixing a URL with such characters does not change the file name
    [sanitize_filename] gives it (nor whether it raises). *)
Theorem sanitize_filename_lstrip w url (Hw : all_c0 w = true) :
  sanitize_filename slugify check_bracketed_netloc checknetloc (w ++ url) =
  sanitize_filename slugify check_bracketed_netloc checknetloc url.
Proof.
  unfold sanitize_filename, urlparse, urlsplit.
  rewrite (lstrip_c0_app w url Hw); reflexivity.
Qed.

Lemma remove_char_app k a b : remove_char k (a ++ b) = remove_char k a ++ remove_char k b.
Proof.
  induction a as [|d a IH]; [reflexivity|].
  cbn; destruct (Ascii.eqb d k); cbn; rewrite IH; reflexivity.
Qed.

Lemma remove_unsafe_bytes_app a b :
  remove_unsafe_bytes (a ++ b) = remove_unsafe_bytes a ++ remove_unsafe_bytes b.
Proof. unfold remove_unsafe_bytes; rewrite !remove_char_app; reflexivity. Qed.

Lemma remove_unsafe_bytes_unsafe c b :
  unsafe_byte c = true -> remove_unsafe_bytes (String c b) = remove_unsafe_bytes b.
Proof.
  unfold unsafe_byte; intros H.
  apply orb_true_iff in H as [H|H]; [apply orb_true_iff in H as [H|H]|];
    apply Ascii.eqb_eq in H; subst c; reflexivity.
Qed.

Lemma unsafe_byte_c0 c : unsafe_byte c = true -> c0_control_or_space c = true.
Proof.
  unfold unsafe_byte; intros H.
  apply orb_true_iff in H as [H|H]; [apply orb_true_iff in H as [H|H]|];
    apply Ascii.eqb_eq in H; subst c; reflexivity.
Qed.

Lemma clean_unsafe a c b : unsafe_byte c = true ->
  remove_unsafe_bytes (lstrip_c0 (a ++ String c b)) =
  remove_unsafe_bytes (lstrip_c0 (a ++ b)).
Proof.
  intros Hc; induction a as [|d a IH].
  - cbn [append lstrip_c0]; rewrite (unsafe_byte_c0 c Hc); reflexivity.
  - cbn [append lstrip_c0]; destruct (c0_control_or_space d); [exact IH|].
    change (String d (a ++ String c b)) with (String d a ++ String c b).
    change (String d (a ++ b)) with (String d a ++ b).
    rewrite !remove_unsafe_bytes_app, (remove_unsafe_bytes_unsafe c b Hc); reflexivity.
Qed.

(** X2: [urlparse] deletes every tab, carriage return and line feed of
    the URL, so inserting one anywhere in a URL does not change what
    [sanitize_filename] returns. *)
Theorem sanitize_filename_remove_unsafe a c b (Hc : unsafe_byte c = true) :
  sanitize_filename slugify check_bracketed_netloc checknetloc (a ++ String c b) =
  sanitize_filename slugify check_bracketed_netloc checknetloc (a ++ b).
Proof.
  unfold sanitize_filename, urlparse, urlsplit.
  rewrite (clean_unsafe a c b Hc); reflexivity.
Qed.

Lemma urlsplit_netloc_path n p
  (Hn : netloc_part n = true) (Hp : path_part p = true)
  (Hbo : char_in "[" n = false) (Hbc : char_in "]" n = false)
  (Hcn : checknetloc n = true) :
  urlsplit check_bracketed_netloc checknetloc ("//" ++ n ++ p) = inr ("", n, p, "", "").
Proof.
  unfold netloc_part, path_part in *.
  apply andb_true_iff in Hn as [Hn1 Hn2].
  apply andb_true_iff in Hp as [Hp Hp3]; apply andb_true_iff in Hp as [Hp1 Hp2].
  apply negb_true_iff, orb_false_iff in Hp2 as [Hpq Hph].
  assert (Hnp : no_unsafe (n ++ p) = true) by (rewrite no_unsafe_app, Hn1, Hp1; reflexivity).
  assert (R1 : remove_unsafe_bytes (lstrip_c0 ("//" ++ n ++ p)) = "//" ++ n ++ p).
  { cbn [append lstrip_c0]; unfold c0_control_or_space; cbn [nat_of_ascii Nat.leb].
    change (String "/" (String "/" (n ++ p))) with ("//" ++ (n ++ p)).
    apply remove_unsafe_bytes_id; rewrite no_unsafe_app, Hnp; reflexivity. }
  assert (R2 : match split_first ":" ("//" ++ n ++ p) with
               | Some (String c0 _ as pre, post) =>
                   if is_ascii_alpha c0 && forallb is_scheme_char (list_ascii_of_string pre)
                   then (lower pre, post) else ("", "//" ++ n ++ p)
               | _ => ("", "//" ++ n ++ p)
               end = ("", "//" ++ n ++ p)).
  { destruct (split_first ":" ("//" ++ n ++ p)) as [[pre post]|] eqn:S; [|reflexivity].
    destruct (split_first_head ":" "/" _ _ _ eq_refl S) as [rest ->]; reflexivity. }
  assert (Hstart_p : match p with EmptyString => true
                                | String c _ => netloc_delim c end = true).
  { destruct p as [|c p]; [reflexivity|apply Ascii.eqb_eq in Hp3; subst c; reflexivity]. }
  unfold urlsplit; rewrite R1, R2; cbv beta iota; cbn [append].
  rewrite (splitnetloc_app n p Hn2 Hstart_p), Hbo, Hbc; cbv beta iota; cbn [andb orb negb].
  rewrite (split_first_none "#" p Hph); cbv beta iota.
  rewrite (split_first_none "?" p Hpq); cbv beta iota.
  rewrite Hcn; reflexivity.
Qed.

Lemma urlsplit_url_of_roundtrip s n p q f
  (Hs : valid_scheme s = true) (Hn : netloc_part n = true) (Hp : path_part p = true)
  (Hq : query_part q = true) (Hf : fragment_part f = true)
  (Hbo : char_in "[" n = false) (Hbc : char_in "]" n = false)
  (Hcn : checknetloc n = true) :
  urlsplit check_bracketed_netloc checknetloc (url_of s n p q f) =
  inr (lower s, n, p, match q with Some q => q | None => "" end,
       match f with Some f => f | None => "" end).
Proof.
  rewrite urlsplit_url_of by assumption.
  rewrite (urlsplit_netloc_path n p Hn Hp Hbo Hbc Hcn); reflexivity.
Qed.

Lemma replace_char_app o w a b : replace_char o w (a ++ b) = replace_char o w a ++ replace_char o w b.
Proof. induction a as [|d a IH]; cbn; [reflexivity|rewrite IH; reflexivity]. Qed.

Lemma replace_char_id o w a : char_in o a = false -> replace_char o w a = a.
Proof.
  induction a as [|d a IH]; [reflexivity|].
  rewrite char_in_cons; intro H; apply orb_false_iff in H as [H1 H2]; cbn.
  rewrite Ascii.eqb_sym, H1, IH by exact H2; reflexivity.
Qed.

Lemma urlsplit_no_scheme n p
  (Hn : netloc_part n = true) (Hp : path_part p = true)
  (Hfirst : match n with String c _ => negb (c0_control_or_space c) | EmptyString => false end = true)
  (Hcolon : char_in ":" (n ++ p) = false)
  (Hcn0 : checknetloc "" = true) :
  urlsplit check_bracketed_netloc checknetloc (n ++ p) = inr ("", "", n ++ p, "", "").
Proof.
  unfold netloc_part, path_part in *.
  apply andb_true_iff in Hn as [Hn1 Hn2].
  apply andb_true_iff in Hp as [Hp Hp3]; apply andb_true_iff in Hp as [Hp1 Hp2].
  apply negb_true_iff, orb_false_iff in Hp2 as [Hpq Hph].
  assert (Hnp : no_unsafe (n ++ p) = true) by (rewrite no_unsafe_app, Hn1, Hp1; reflexivity).
  assert (Hnh : char_in "#" n = false) by (apply (char_in_forallb _ _ _ Hn2); reflexivity).
  assert (Hnq : char_in "?" n = false) by (apply (char_in_forallb _ _ _ Hn2); reflexivity).
  destruct n as [|c n']; [discriminate|].
  assert (Hslash : Ascii.eqb c "/" = false).
  { cbn [list_ascii_of_string forallb] in Hn2; apply andb_true_iff in Hn2 as [Hc _].
    unfold netloc_delim in Hc; destruct (Ascii.eqb c "/"); [discriminate|reflexivity]. }
  apply negb_true_iff in Hfirst.
  assert (R1 : remove_unsafe_bytes (lstrip_c0 (String c n' ++ p)) = String c n' ++ p).
  { cbn [append lstrip_c0]; rewrite Hfirst; apply remove_unsafe_bytes_id, Hnp. }
  assert (R3 : match String c (n' ++ p) with
               | String "/" (String "/" rest) => splitnetloc rest
               | _ => ("", String c (n' ++ p))
               end = ("", String c (n' ++ p))).
  { destruct c as [[] [] [] [] [] [] [] []]; try reflexivity; discriminate. }
  unfold urlsplit; rewrite R1, (split_first_none ":" _ Hcolon); cbv beta iota.
  cbn [append] in *; rewrite R3; cbv beta iota; cbn [char_in list_ascii_of_string existsb andb orb negb].
  rewrite (split_first_none "#" (String c (n' ++ p))) by
    (change (String c (n' ++ p)) with (String c n' ++ p); rewrite char_in_app, Hnh, Hph; reflexivity).
  cbv beta iota.
  rewrite (split_first_none "?" (String c (n' ++ p))) by
    (change (String c (n' ++ p)) with (String c n' ++ p); rewrite char_in_app, Hnq, Hpq; reflexivity).
  cbv beta iota.
  rewrite Hcn0; reflexivity.
Qed.

(** X3: a URL written without scheme and [//] ([example.com/page]) gets
    the same file name as the same host and path with a valid scheme, a
    query and a fragment, provided the host and path hold no [':'] (else
    the text before it reads as a scheme), no [';'] (else [http] and the
    like split off parameters), the host no brackets, no ['/'], ['?'] or
    ['#'] and does not start with a space or control character, the path
    is empty or starts with ['/'] and holds no ['?'] or ['#'], neither
    holds a tab or newline, and [checknetloc] accepts the host and the
    empty host.  Then without [//] the whole text is the path, and its
    ['/'] are turned into ['_'] just as the one between host and path
    is. *)
Theorem sanitize_filename_scheme_optional s n p q f
  (Hs : valid_scheme s = true) (Hn : netloc_part n = true) (Hp : path_part p = true)
  (Hq : query_part q = true) (Hf : fragment_part f = true)
  (Hfirst : match n with String c _ => negb (c0_control_or_space c) | EmptyString => false end = true)
  (Hcolon : char_in ":" (n ++ p) = false) (Hsemi : char_in ";" (n ++ p) = false)
  (Hbo : char_in "[" n = false) (Hbc : char_in "]" n = false)
  (Hcn : checknetloc n = true) (Hcn0 : checknetloc "" = true) :
  sanitize_filename slugify check_bracketed_netloc checknetloc (n ++ p) =
  sanitize_filename slugify check_bracketed_netloc checknetloc (url_of s n p q f).
Proof.
  unfold sanitize_filename, urlparse.
  rewrite (urlsplit_no_scheme n p Hn Hp Hfirst Hcolon Hcn0).
  rewrite (urlsplit_url_of_roundtrip s n p q f Hs Hn Hp Hq Hf Hbo Hbc Hcn).
  rewrite char_in_app in Hsemi; apply orb_false_iff in Hsemi as [Hsn Hsp].
  rewrite char_in_app, Hsn, Hsp, !andb_false_r; cbv beta iota; cbn [pr_netloc pr_path].
  rewrite replace_char_app, (replace_char_id "/" "_" n); [reflexivity|].
  apply andb_true_iff in Hn as [_ Hn2]; apply (char_in_forallb _ _ _ Hn2); reflexivity.
Qed.

Lemma locate_loop_no_visible l : forall found,
  no_visible_no_raise l = true ->
  locate_loop found l = inr (match last_located l with Some x => Some x | None => found end).
Proof.
  induction l as [|w l IH]; intros found H; [reflexivity|].
  cbn [no_visible_no_raise forallb] in H; unfold no_visible_no_raise in IH.
  apply andb_true_iff in H as [Hw H].
  destruct w as [|el [|]|e]; cbn [locate_loop last_located].
  - apply IH, H.
  - discriminate.
  - rewrite (IH (Some el) H); destruct (last_located l); reflexivity.
  - rewrite Hw; apply IH, H.
Qed.

(** X4: when no candidate of a locator chain is visible (and none raises
    past the loop), the resolver ends with the element of the last
    candidate that matched, hidden as it is, or with nothing when no
    candidate matched. *)
Theorem resolve_without_visible l (H : no_visible_no_raise l = true) :
  resolve l = inr (last_located l).
Proof.
  unfold resolve; rewrite (locate_loop_no_visible l None H).
  destruct (last_located l); reflexivity.
Qed.

(** X5: the first visible match of a chain is the resolver's result,
    whatever hidden matches and timeouts precede it and whatever follows
    it. *)
Theorem resolve_first_visible pre el post (H : no_visible_no_raise pre = true) :
  resolve (app pre (Located el true :: post)) = inr (Some el).
Proof.
  unfold resolve; generalize (@None nat) as found.
  induction pre as [|w pre IH]; intros found; [reflexivity|].
  cbn [no_visible_no_raise forallb] in H; unfold no_visible_no_raise in IH.
  apply andb_true_iff in H as [Hw H].
  destruct w as [|el' [|]|e]; cbn [app locate_loop]; try discriminate; try (apply IH; exact H).
  rewrite Hw; apply IH, H.
Qed.
End Extras.

(** ** C8: the archive written by [create_zip] *)

Lemma wf_dir es : wf (DirN es) <-> NoDup (map fst es) /\ Forall (fun e => wf (snd e)) es.
Proof.
  cbn; split; intros [Hn Ha]; split; auto; clear Hn.
  - induction es as [|[nm c] r IH]; constructor; cbn in *; tauto.
  - induction es as [|[nm c] r IH]; [exact I|]. inversion Ha; subst; cbn in *; tauto.
Qed.

Lemma entry_In x es c : NoDup (map fst es) -> entry x es = Some c <-> In (x, c) es.
Proof.
  induction es as [|[nm c0] r IH]; cbn; intros Hnd; [split; [discriminate|tauto]|].
  inversion Hnd as [|? ? Hnin Hnd']; subst.
  destruct (String.eqb_spec nm x) as [->|Hne].
  - split.
    + intros [= <-]; auto.
    + intros [[= <-]|Hin]; [reflexivity|].
      exfalso; apply Hnin; apply (in_map fst _ _ Hin).
  - rewrite IH by assumption. split; [auto|].
    intros [[= -> _]|Hin]; [congruence|exact Hin].
Qed.

Lemma walk_dir' es : walk (DirN es) = app (top_files es) (sub_walks es).
Proof. reflexivity. Qed.

Lemma top_files_In es rel :
  In rel (top_files es) <-> exists x, rel = [x] /\ In (x, FileN) es.
Proof.
  induction es as [|[nm [|ces]] r IH]; cbn.
  - split; [tauto|intros (x & _ & [])].
  - rewrite IH; split.
    + intros [<-|(x & -> & Hin)]; eauto.
    + intros (x & -> & [[= ->]|Hin]); eauto.
  - rewrite IH; split.
    + intros (x & -> & Hin); eauto.
    + intros (x & -> & [[=]|Hin]); eauto.
Qed.

Lemma sub_walks_In es rel :
  In rel (sub_walks es) <->
  exists x ces rel', rel = x :: rel' /\ In (x, DirN ces) es /\ In rel' (walk (DirN ces)).
Proof.
  induction es as [|[nm [|ces]] r IH]; cbn.
  - split; [tauto|intros (x & ces & rel' & _ & [] & _)].
  - rewrite IH; split.
    + intros (x & ces & rel' & -> & Hin & Hw); eauto 7.
    + intros (x & ces & rel' & -> & [[=]|Hin] & Hw); eauto 7.
  - rewrite in_app_iff, IH, in_map_iff; split.
    + intros [(rel' & <- & Hw)|(x & ces' & rel' & -> & Hin & Hw)]; eauto 7.
    + intros (x & ces' & rel' & -> & [[= -> ->]|Hin] & Hw); eauto 8.
Qed.

Lemma walk_nonempty n rel : In rel (walk n) -> rel <> [].
Proof.
  destruct n as [|es]; [intros []|].
  rewrite walk_dir', in_app_iff, top_files_In, sub_walks_In.
  intros [(x & -> & _)|(x & ces & rel' & -> & _)]; discriminate.
Qed.

Lemma lookup_file rel : lookup rel FileN = Some FileN -> rel = [].
Proof. destruct rel; cbn; congruence. Qed.

Lemma walk_In n : wf n -> forall rel, In rel (walk n) <-> rel <> [] /\ lookup rel n = Some FileN.
Proof.
  induction n as [|es IH] using node_ind'.
  - intros _ rel; cbn; split; [tauto|intros [Hne Hl]; apply lookup_file in Hl; contradiction].
  - intros Hwf rel; apply wf_dir in Hwf as [Hnd Hall].
    split.
    + intros Hin; split; [exact (walk_nonempty _ _ Hin)|].
      rewrite walk_dir', in_app_iff, top_files_In, sub_walks_In in Hin.
      destruct Hin as [(x & -> & Hin)|(x & ces & rel' & -> & Hin & Hw)]; cbn.
      * rewrite (proj2 (entry_In x es FileN Hnd) Hin); reflexivity.
      * rewrite (proj2 (entry_In x es (DirN ces) Hnd) Hin).
        rewrite Forall_forall in IH, Hall.
        apply (IH _ Hin (Hall _ Hin)) in Hw; tauto.
    + intros [Hne Hl]; destruct rel as [|x rel']; [contradiction|].
      cbn in Hl; destruct (entry x es) as [c|] eqn:He; [|discriminate].
      apply (entry_In x es c Hnd) in He.
      rewrite walk_dir', in_app_iff, top_files_In, sub_walks_In.
      destruct c as [|ces].
      * apply lookup_file in Hl; subst rel'; left; eauto.
      * right; exists x, ces, rel'; split; [reflexivity|split; [exact He|]].
        rewrite Forall_forall in IH, Hall.
        apply (IH _ He (Hall _ He)); split; [|exact Hl].
        intros ->; discriminate.
Qed.

Lemma top_files_NoDup es : NoDup (map fst es) -> NoDup (top_files es).
Proof.
  induction es as [|[nm [|ces]] r IH]; cbn; intros Hnd; [constructor| |];
    inversion Hnd as [|? ? Hnin Hnd']; subst; auto.
  constructor; auto.
  rewrite top_files_In; intros (x & [= ->] & Hin).
  apply Hnin, (in_map fst _ _ Hin).
Qed.

Lemma sub_walks_NoDup es :
  NoDup (map fst es) -> Forall (fun e => NoDup (walk (snd e))) es -> NoDup (sub_walks es).
Proof.
  induction es as [|[nm [|ces]] r IH]; cbn; intros Hnd Hall; [constructor| |];
    inversion Hnd as [|? ? Hnin Hnd']; inversion Hall; subst; auto.
  apply NoDup_app.
  - apply NoDup_map_NoDup_ForallPairs; [|assumption].
    intros a b _ _ [= ->]; reflexivity.
  - auto.
  - intros a Ha Hb; rewrite in_map_iff in Ha; destruct Ha as (rel' & <- & _).
    rewrite sub_walks_In in Hb; destruct Hb as (x & ces' & rel'' & [= <- _] & Hin & _).
    apply Hnin, (in_map fst _ _ Hin).
Qed.

Lemma walk_NoDup n : wf n -> NoDup (walk n).
Proof.
  induction n as [|es IH] using node_ind'; [intros; constructor|].
  intros Hwf; apply wf_dir in Hwf as [Hnd Hall].
  rewrite walk_dir'; apply NoDup_app.
  - apply top_files_NoDup, Hnd.
  - apply sub_walks_NoDup; [exact Hnd|].
    rewrite Forall_forall in *; intros e He; exact (IH e He (Hall e He)).
  - intros a Ha Hb; rewrite top_files_In in Ha; destruct Ha as (x & -> & _).
    rewrite sub_walks_In in Hb; destruct Hb as (x' & ces & rel' & [= _ <-] & _ & Hw).
    exact (walk_nonempty _ _ Hw eq_refl).
Qed.

Lemma count_files_cons nm c r :
  count_files (DirN ((nm, c) :: r)) = count_files c + count_files (DirN r).
Proof. reflexivity. Qed.

Lemma walk_length es : length (walk (DirN es)) = count_files (DirN es).
Proof.
  revert es.
  enough (H : forall n, match n with
                        | FileN => True
                        | DirN es => length (walk (DirN es)) = count_files (DirN es)
                        end) by exact (fun es => H (DirN es)).
  induction n as [|es IH] using node_ind'; [exact I|].
  induction es as [|[nm c] r IHr]; [reflexivity|].
  inversion IH as [|? ? Hc Hr]; subst.
  specialize (IHr Hr).
  rewrite count_files_cons, <- IHr, !walk_dir', !length_app.
  destruct c as [|ces]; cbn [top_files sub_walks length].
  - reflexivity.
  - cbn [snd] in Hc; rewrite length_app, length_map, Hc; lia.
Qed.

Lemma entry_app y es l :
  entry y (app es l) = match entry y es with Some c => Some c | None => entry y l end.
Proof.
  induction es as [|[nm c] r IH]; cbn; [reflexivity|].
  destruct (String.eqb nm y); [reflexivity|exact IH].
Qed.

Lemma entry_set x y c' es :
  entry y (set_entry x c' es) =
  if String.eqb x y then match entry y es with Some _ => Some c' | None => None end
  else entry y es.
Proof.
  induction es as [|[nm c] r IH]; cbn; [destruct (String.eqb x y); reflexivity|].
  destruct (String.eqb_spec nm x) as [->|Hne]; cbn.
  - destruct (String.eqb x y); reflexivity.
  - rewrite IH. destruct (String.eqb_spec x y) as [->|Hxy].
    + apply String.eqb_neq in Hne; rewrite Hne; reflexivity.
    + reflexivity.
Qed.

Lemma lookup_app p q n :
  lookup (app p q) n = match lookup p n with Some m => lookup q m | None => None end.
Proof.
  revert n; induction p as [|x p IH]; intros n; [reflexivity|].
  destruct n as [|es]; cbn; [reflexivity|].
  destruct (entry x es); [apply IH|reflexivity].
Qed.

Lemma wf_lookup p n m : wf n -> lookup p n = Some m -> wf m.
Proof.
  revert n; induction p as [|x p IH]; intros n Hwf Hl; cbn in Hl; [congruence|].
  destruct n as [|es]; [discriminate|].
  destruct (entry x es) as [c|] eqn:He; [|discriminate].
  apply wf_dir in Hwf as [Hnd Hall].
  apply (entry_In x es c Hnd) in He.
  rewrite Forall_forall in Hall.
  exact (IH c (Hall _ He) Hl).
Qed.

Lemma create_file_deep x w z es :
  create_file (x :: w :: z) (DirN es) =
  match entry x es with
  | Some c => match create_file (w :: z) c with
              | Some c' => Some (DirN (set_entry x c' es))
              | None => None
              end
  | None => None
  end.
Proof. reflexivity. Qed.

(** Creating the file [z] leaves every path that is not a prefix of [z]
    as it was. *)
Lemma create_file_frame z : forall n n1 p,
  create_file z n = Some n1 -> (~ exists r, z = app p r) -> lookup p n1 = lookup p n.
Proof.
  induction z as [|x z IH]; intros n n1 p Hc Hpre; [discriminate|].
  destruct n as [|es]; [destruct z; discriminate|].
  destruct p as [|y p']; [exfalso; apply Hpre; exists (x :: z); reflexivity|].
  destruct z as [|w z''].
  - cbn in Hc. destruct (entry x es) as [[|ces]|] eqn:He; try discriminate.
    + injection Hc as <-; reflexivity.
    + injection Hc as <-; cbn; rewrite entry_app.
      destruct (entry y es) eqn:Hy; [reflexivity|].
      cbn; destruct (String.eqb_spec x y) as [->|Hxy]; [|reflexivity].
      destruct p' as [|q p'']; [|reflexivity].
      exfalso; apply Hpre; exists []; reflexivity.
  - rewrite create_file_deep in Hc.
    destruct (entry x es) as [c|] eqn:He; [|discriminate].
    destruct (create_file (w :: z'') c) as [c'|] eqn:Hc'; [|discriminate].
    injection Hc as <-; cbn; rewrite entry_set.
    destruct (String.eqb_spec x y) as [<-|Hxy]; [|reflexivity].
    rewrite He. apply (IH c c' p' Hc').
    intros (r & Hr); apply Hpre; exists r; cbn; rewrite Hr; reflexivity.
Qed.

Lemma relpath_output_dir parent d rel :
  relpath (app (app parent [d]) rel) (path_parent (app parent [d])) = d :: rel.
Proof.
  unfold relpath, path_parent; rewrite removelast_last, <- app_assoc.
  induction parent as [|x parent IH]; [reflexivity|exact IH].
Qed.

Lemma NoDup_map_cons d (l : list (list string)) : NoDup l -> NoDup (map (cons d) l).
Proof.
  apply NoDup_map_NoDup_ForallPairs; intros a b _ _ [= ->]; reflexivity.
Qed.

(** C8 (as amended): for an output directory [parent/d] and a
    well-formed tree, if the archive path lies outside the output directory
    then [create_zip] writes exactly the files present under [parent/d]
    when it was called, each once, under the name [d/rel] (its path
    relative to [parent]), and as many entries as there are such files. *)
Theorem create_zip_archives_output_dir fs parent d zip_path ts es z
  (Hwf : wf fs)
  (Hzip : create_zip fs (app parent [d]) zip_path ts = Some (es, z))
  (Houtside : ~ exists r, z = app (app parent [d]) r) :
  (forall rel, In (d :: rel) es <-> file_under fs (app parent [d]) rel) /\
  (forall a, In a es -> exists rel, a = d :: rel) /\
  NoDup es /\
  length es = files_count_under fs (app parent [d]).
Proof.
  unfold create_zip in Hzip.
  set (zp := match zip_path with Some z0 => z0 | None => _ end) in Hzip.
  destruct (create_file zp fs) as [fs1|] eqn:Hc; [|discriminate].
  injection Hzip as <- <-.
  rewrite (create_file_frame zp fs fs1 _ Hc Houtside).
  rewrite (map_ext _ (cons d) (relpath_output_dir parent d)).
  unfold file_under, files_count_under.
  destruct (lookup (app parent [d]) fs) as [[|es']|] eqn:Hl.
  - cbv beta iota; cbn [map]; split; [|split; [|split]].
    + intros rel; split; [intros []|].
      intros [Hne Hf]; rewrite lookup_app, Hl in Hf.
      apply lookup_file in Hf; contradiction.
    + intros a [].
    + constructor.
    + reflexivity.
  - assert (Hwf' : wf (DirN es')) by exact (wf_lookup _ _ _ Hwf Hl).
    cbv beta iota; split; [|split; [|split]].
    + intros rel; split.
      * intros Hin; apply in_map_iff in Hin as (rel' & [= ->] & Hin).
        rewrite lookup_app, Hl; exact (proj1 (walk_In _ Hwf' _) Hin).
      * intros Hin; apply in_map_iff; exists rel; split; [reflexivity|].
        apply (proj2 (walk_In _ Hwf' rel)).
        split; [exact (proj1 Hin)|].
        rewrite lookup_app, Hl in Hin; exact (proj2 Hin).
    + intros a Hin; apply in_map_iff in Hin as (rel' & <- & _); eauto.
    + exact (NoDup_map_cons _ _ (walk_NoDup _ Hwf')).
    + rewrite length_map; exact (walk_length es').
  - cbv beta iota; cbn [map]; split; [|split; [|split]].
    + intros rel; split; [intros []|].
      intros [Hne Hf]; rewrite lookup_app, Hl in Hf; discriminate.
    + intros a [].
    + constructor.
    + reflexivity.
Qed.

(** ** Creating the archive *)

Lemma lookup_FileN_dir p es : lookup p FileN <> Some (DirN es).
Proof. destruct p; cbn; discriminate. Qed.

Lemma create_file_no_new_dir z : forall n n1 p es',
  create_file z n = Some n1 -> lookup p n1 = Some (DirN es') ->
  exists es, lookup p n = Some (DirN es).
Proof.
  induction z as [|x z IH]; intros n n1 p es' Hc Hl; [discriminate|].
  destruct n as [|es]; [destruct z; discriminate|].
  destruct p as [|y p']; [exists es; reflexivity|].
  destruct z as [|w z''].
  - cbn in Hc. destruct (entry x es) as [[|ces]|] eqn:He; try discriminate.
    + injection Hc as <-; eauto.
    + injection Hc as <-; cbn in Hl |- *; rewrite entry_app in Hl.
      destruct (entry y es) as [c|]; [eauto|].
      cbn in Hl; destruct (String.eqb x y); [|discriminate].
      exfalso; exact (lookup_FileN_dir _ _ Hl).
  - rewrite create_file_deep in Hc.
    destruct (entry x es) as [c|] eqn:He; [|discriminate].
    destruct (create_file (w :: z'') c) as [c'|] eqn:Hc'; [|discriminate].
    injection Hc as <-; cbn in Hl |- *; rewrite entry_set in Hl.
    destruct (String.eqb_spec x y) as [<-|Hxy].
    + rewrite He in Hl |- *. exact (IH c c' p' es' Hc' Hl).
    + destruct (entry y es); [eauto|discriminate].
Qed.

Lemma create_file_some z : forall n,
  create_file z n <> None <->
  z <> [] /\ (exists es, lookup (removelast z) n = Some (DirN es)) /\
  (forall es, lookup z n <> Some (DirN es)).
Proof.
  induction z as [|x z IH]; intros n.
  - cbn; split; [congruence|tauto].
  - destruct n as [|es].
    + split; [destruct z; cbn; congruence|].
      intros (_ & (es & Hl) & _).
      destruct z as [|w z'']; cbn in Hl; discriminate.
    + destruct z as [|w z''].
      * cbn. destruct (entry x es) as [[|ces]|].
        -- split; [intros _; split; [congruence|split; [eauto|congruence]]|congruence].
        -- split; [congruence|intros (_ & _ & H); exfalso; exact (H ces eq_refl)].
        -- split; [intros _; split; [congruence|split; [eauto|congruence]]|congruence].
      * rewrite create_file_deep.
        change (removelast (x :: w :: z'')) with (x :: removelast (w :: z'')).
        cbn [lookup]. destruct (entry x es) as [c|].
        -- pose proof (IH c) as Hi.
           destruct (create_file (w :: z'') c); split.
           ++ intros _; split; [congruence|]. apply Hi; congruence.
           ++ congruence.
           ++ congruence.
           ++ intros (_ & H). exfalso; apply Hi; [split; [congruence|exact H]|reflexivity].
        -- split; [congruence|intros (_ & (es' & H) & _); discriminate].
Qed.

Lemma create_zip_target fs output_dir zip_path ts :
  create_zip fs output_dir zip_path ts =
  match create_file (zip_target output_dir zip_path ts) fs with
  | None => None
  | Some fs1 =>
      Some (map (fun rel => relpath (app output_dir rel) (path_parent output_dir))
                match lookup output_dir fs1 with
                | Some (DirN es) => walk (DirN es)
                | _ => []
                end,
            zip_target output_dir zip_path ts)
  end.
Proof. reflexivity. Qed.

(** X13: when [create_zip] returns, the archive path it returns is not
    empty, its parent is an existing directory and it does not name an
    existing directory; so [create_zip] raises whenever one of these
    fails. *)
Theorem create_zip_archive_path_valid fs output_dir zip_path ts es z
  (Hzip : create_zip fs output_dir zip_path ts = Some (es, z)) :
  z <> [] /\
  (exists es', lookup (path_parent z) fs = Some (DirN es')) /\
  (forall es', lookup z fs <> Some (DirN es')).
Proof.
  rewrite create_zip_target in Hzip.
  destruct (create_file (zip_target output_dir zip_path ts) fs) as [fs1|] eqn:Hc;
    [|discriminate].
  injection Hzip as _ <-.
  unfold path_parent; apply create_file_some; congruence.
Qed.

(** X14: when the output directory does not exist (or is a file),
    [create_zip] that does not raise writes an empty archive and returns
    the archive path. *)
Theorem create_zip_missing_output_dir fs output_dir zip_path ts es z
  (Hnodir : forall es', lookup output_dir fs <> Some (DirN es'))
  (Hzip : create_zip fs output_dir zip_path ts = Some (es, z)) :
  es = [] /\ z = zip_target output_dir zip_path ts.
Proof.
  rewrite create_zip_target in Hzip.
  destruct (create_file (zip_target output_dir zip_path ts) fs) as [fs1|] eqn:Hc;
    [|discriminate].
  injection Hzip as <- <-; split; [|reflexivity].
  destruct (lookup output_dir fs1) as [[|es']|] eqn:Hl; try reflexivity.
  destruct (create_file_no_new_dir _ _ _ _ _ Hc Hl) as (es0 & H0).
  exfalso; exact (Hnodir es0 H0).
Qed.

(** X15: with the default archive path and an existing output directory
    [parent/d], the archive is [parent/seo_audit_results_<ts>.zip], which
    never lies inside the output directory. *)
Theorem create_zip_default_path_outside fs parent d ts es z es0
  (Hdir : lookup (app parent [d]) fs = Some (DirN es0))
  (Hzip : create_zip fs (app parent [d]) None ts = Some (es, z)) :
  z = app parent [("seo_audit_results_" ++ ts ++ ".zip")%string] /\
  ~ exists r, z = app (app parent [d]) r.
Proof.
  unfold create_zip in Hzip; unfold path_parent in Hzip; rewrite removelast_last in Hzip.
  set (nm := ("seo_audit_results_" ++ ts ++ ".zip")%string) in Hzip |- *.
  destruct (create_file (app parent [nm]) fs) as [fs1|] eqn:Hc; [|discriminate].
  injection Hzip as _ <-; split; [reflexivity|].
  intros (r & Hr).
  assert (Hlen : length (app parent [nm]) = length (app (app parent [d]) r))
    by (rewrite Hr; reflexivity).
  rewrite !length_app in Hlen; cbn in Hlen.
  destruct r as [|x r]; [|cbn in Hlen; lia].
  rewrite app_nil_r in Hr; rewrite Hr in Hc.
  assert (Hne : create_file (app parent [d]) fs <> None) by congruence.
  apply create_file_some in Hne as (_ & _ & Hnd).
  exact (Hnd es0 Hdir).
Qed.

(** ** C2: the locator loops *)

(** A visible element ends the loop with that element, whatever hidden
    elements and timeouts came before it. *)
Lemma locate_loop_first_visible found pre el post :
  Forall (fun w => match w with
                   | Located _ true => False
                   | WaitRaises e => locator_loop_catches e = true
                   | _ => True
                   end) pre ->
  locate_loop found (app pre (Located el true :: post)) = inr (Some el).
Proof.
  revert found; induction pre as [|w pre IH]; intros found Hpre; [reflexivity|].
  inversion Hpre as [|? ? Hw Hrest]; subst.
  destruct w as [|el' [|]|e]; cbn; try contradiction; try apply IH; auto.
  rewrite Hw; apply IH, Hrest.
Qed.


(** * Concrete runs *)

(** ** C2 *)

(** C2: the first visible element wins ([A] times out, [B] and [C] match:
    [B]'s element is returned), but a selector that matches a hidden
    element leaves that element in the loop variable: with the first URL
    selector matching a hidden input and the other five timing out, the
    loop reports the hidden input instead of "not found", and
    [process_url] goes on to type into it; when that raises, the item
    fails with an "Unexpected error" rather than with the "Could not find
    URL input field" message. *)
Theorem resolve_returns_hidden_element :
  resolve [WaitTimeout; Located 2 true; Located 3 true] = inr (Some 2%nat) /\
  resolve hidden_chain = inr (Some 1%nat) /\
  process_url slugify_ascii check_bracketed_passes checknetloc_ascii
              "out" "t" "example.com" hidden_input_env
    = Returned (with_error (mkResult "example.com" Failed None None "t")
                           "Unexpected error: element not interactable").
Proof.
  split; [reflexivity|split; [reflexivity|]].
  vm_compute; reflexivity.
Qed.

(** ** C3 *)

(** C3, counterexample: an exception raised while filling the email form
    is caught by the inner handler, and the failed result carries
    "Failed to handle email form: ...", not "unexpected error: ...". *)
Lemma process_url_email_error_counterexample :
  interrupt_free email_fail_env = true /\
  exists r,
    process_url slugify_ascii check_bracketed_passes checknetloc_ascii
                "out" "t" "example.com" email_fail_env = Returned r /\
    r_status r = Failed /\
    r_error r = Some "Failed to handle email form: element not interactable" /\
    forall d, r_error r <> Some ("unexpected error: " ++ d) /\
              r_error r <> Some ("Unexpected error: " ++ d).
Proof.
  split; [reflexivity|].
  eexists; split; [vm_compute; reflexivity|].
  split; [reflexivity|split; [reflexivity|]].
  intros d; cbn; split; intros H; injection H; discriminate.
Qed.

(** C3, witness: filling the email field raises; the item fails with
    "Failed to handle email form: element not interactable". *)
Lemma process_url_catches_Exception_witness :
  reaches_point sanitize_ascii "example.com" AtFillEmail email_fail_env = true /\
  point_exn sanitize_ascii "example.com" AtFillEmail email_fail_env = Some not_interactable /\
  exists r,
    process_url slugify_ascii check_bracketed_passes checknetloc_ascii
                "out" "t" "example.com" email_fail_env = Returned r /\
    (r_status r = Failed -> exists m, r_error r = Some m /\ failure_message m) /\
    (forall p e,
       reaches_point sanitize_ascii "example.com" p email_fail_env = true ->
       point_exn sanitize_ascii "example.com" p email_fail_env = Some e ->
       r = with_error (mkResult "example.com" Failed None None "t")
                      (handler_prefix p ++ exn_str e)).
Proof.
  split; [vm_compute; reflexivity|split; [reflexivity|]].
  apply (process_url_catches_Exception slugify_ascii check_bracketed_passes
           checknetloc_ascii "out" "t" "example.com" email_fail_env).
  vm_compute; reflexivity.
Defined.

(** ** C4 *)

Lemma process_url_result_invariant_witness :
  let r := mkResult "example.com" Success (Some "out/example-com.png") None "t" in
  (r_status r = Success -> r_screenshot_path r <> None) /\
  (r_status r = Failed -> r_error r <> None).
Proof.
  apply (process_url_result_invariant slugify_ascii check_bracketed_passes
           checknetloc_ascii "out" "t" "example.com" ok_env).
  vm_compute; reflexivity.
Defined.

(** ** C5 *)

Lemma mandatory_step_not_found_witness :
  process_url slugify_ascii check_bracketed_passes checknetloc_ascii
              "out" "t" "example.com" submit_missing_env
    = Returned (with_error (mkResult "example.com" Failed None None "t")
                           (step_msg StepSubmit)) /\
  (forall k', step_msg k' = step_msg StepSubmit -> k' = StepSubmit) /\
  contains "input field" (step_msg StepUrlInput) = true /\
  contains "submit" (step_msg StepSubmit) = true.
Proof.
  apply (mandatory_step_not_found slugify_ascii check_bracketed_passes
           checknetloc_ascii "out" "t" "example.com" submit_missing_env StepSubmit).
  - vm_compute; reflexivity.
  - vm_compute; reflexivity.
Defined.

(** ** C6 *)

Lemma process_csv_releases_session_witness :
  let '(o, st) := process_csv slugify_ascii check_bracketed_passes checknetloc_ascii
                              "out" interrupted_batch init_state in
  st_driver st = None /\
  (forall d, In d (st_started st) -> ~ In d (st_started init_state) -> In d (st_quit st)) /\
  (forall e, o = Raised e -> st_results_csv st = st_results_csv init_state).
Proof.
  apply (process_csv_releases_session slugify_ascii check_bracketed_passes
           checknetloc_ascii "out" interrupted_batch init_state).
  reflexivity.
Defined.

(** ** C1 *)

Lemma process_csv_one_result_per_url_witness :
  exists successful failed st rs,
    process_csv slugify_ascii check_bracketed_passes checknetloc_ascii "out" ok_batch
                init_state = (Returned (successful, failed), st) /\
    st_results_csv st = Some rs /\
    map r_url rs = ["a.com"; "b.com"] /\
    List.length successful + List.length failed = List.length ["a.com"; "b.com"].
Proof.
  apply (process_csv_one_result_per_url slugify_ascii check_bracketed_passes
           checknetloc_ascii "out" ok_batch 1%nat ["a.com"; "b.com"] init_state).
  - reflexivity.
  - reflexivity.
  - discriminate.
  - discriminate.
  - reflexivity.
  - reflexivity.
  - intros i; destruct i as [|[|i]]; vm_compute; reflexivity.
  - intros i; reflexivity.
  - reflexivity.
Defined.

(** ** C9 *)

Lemma process_csv_empty_input_witness :
  fst (process_csv slugify_ascii check_bracketed_passes checknetloc_ascii
                   "out" empty_batch init_state) = Returned ([], []) /\
  st_started (snd (process_csv slugify_ascii check_bracketed_passes checknetloc_ascii
                     "out" empty_batch init_state)) = st_started init_state.
Proof.
  apply (process_csv_empty_input slugify_ascii check_bracketed_passes
           checknetloc_ascii "out" empty_batch 1%nat init_state).
  - reflexivity.
  - reflexivity.
  - discriminate.
Defined.

(** ** C7 *)

Lemma sanitize_filename_deterministic_bounded_witness :
  sanitize_ascii "https://example.com/a" = sanitize_ascii "https://example.com/a" /\
  match sanitize_ascii "https://example.com/a" with
  | inr name => String.length name <= 100 | inl _ => True end.
Proof.
  apply (sanitize_filename_deterministic_bounded slugify_ascii check_bracketed_passes
           checknetloc_ascii).
  reflexivity.
Defined.

(** ** C10 *)

(** C10, counterexample: "ws" is not in [uses_params] and "http" is, so
    [urlparse] moves ";v" out of the path of the first URL only, and the
    two URLs, which differ only in their scheme, get different names. *)
Lemma sanitize_filename_scheme_counterexample :
  sanitize_ascii (url_of "http" "a.com" "/x;v" None None) = inr "a-com-x" /\
  sanitize_ascii (url_of "ws" "a.com" "/x;v" None None) = inr "a-com-x-v".
Proof. split; vm_compute; reflexivity. Qed.

(** C10, witness: an http URL with a query and an https URL with a
    fragment, same host and path, share their file name. *)
Lemma sanitize_filename_ignores_query_fragment_witness :
  sanitize_ascii (url_of "http" "example.com" "/page" (Some "utm=1") None) =
  sanitize_ascii (url_of "https" "example.com" "/page" None (Some "top")).
Proof.
  apply (sanitize_filename_ignores_query_fragment slugify_ascii check_bracketed_passes
           checknetloc_ascii).
  all: try (vm_compute; reflexivity).
  left; vm_compute; reflexivity.
Defined.

(** ** C8 *)

(** C8, counterexample: with the default archive path, [create_zip(".")]
    creates [./seo_audit_results_<ts>.zip] before walking ".", so the
    archive lists two entries, one of them the archive itself, while one
    file was present under "." when it was called. *)
Lemma create_zip_counterexample :
  create_zip cwd_tree [] None "t" =
    Some ([["a.png"]; ["seo_audit_results_t.zip"]], ["seo_audit_results_t.zip"]) /\
  files_count_under cwd_tree [] = 1%nat /\
  lookup ["seo_audit_results_t.zip"] cwd_tree = None.
Proof. split; [|split]; vm_compute; reflexivity. Qed.

Lemma create_zip_archives_output_dir_witness :
  (forall rel, In ("run" :: rel) [["run"; "a.png"]; ["run"; "results.csv"];
                                  ["run"; "shots"; "b.png"]]
               <-> file_under run_tree ["out"; "run"] rel) /\
  (forall a, In a [["run"; "a.png"]; ["run"; "results.csv"]; ["run"; "shots"; "b.png"]] ->
             exists rel, a = "run" :: rel) /\
  NoDup [["run"; "a.png"]; ["run"; "results.csv"]; ["run"; "shots"; "b.png"]] /\
  length [["run"; "a.png"]; ["run"; "results.csv"]; ["run"; "shots"; "b.png"]] =
    files_count_under run_tree ["out"; "run"].
Proof.
  apply (create_zip_archives_output_dir run_tree ["out"] "run" None "t" _
           ["out"; "seo_audit_results_t.zip"]).
  - vm_compute; repeat constructor; cbn; intuition discriminate.
  - vm_compute; reflexivity.
  - intros [r Hr]; discriminate.
Defined.

(** ** Witnesses of the further properties *)

Lemma sanitize_filename_lstrip_witness :
  all_c0 "  " = true /\
  sanitize_filename slugify_ascii check_bracketed_passes checknetloc_ascii
    ("  " ++ "https://example.com/page")
  = sanitize_filename slugify_ascii check_bracketed_passes checknetloc_ascii
      "https://example.com/page".
Proof.
  split; [reflexivity|].
  apply (sanitize_filename_lstrip slugify_ascii check_bracketed_passes checknetloc_ascii).
  reflexivity.
Defined.

Lemma sanitize_filename_remove_unsafe_witness :
  unsafe_byte TAB = true /\
  sanitize_filename slugify_ascii check_bracketed_passes checknetloc_ascii
    ("https://example.com/pa" ++ String TAB "ge")
  = sanitize_filename slugify_ascii check_bracketed_passes checknetloc_ascii
      ("https://example.com/pa" ++ "ge").
Proof.
  split; [reflexivity|].
  apply (sanitize_filename_remove_unsafe slugify_ascii check_bracketed_passes checknetloc_ascii).
  reflexivity.
Defined.

Lemma sanitize_filename_scheme_optional_witness :
  sanitize_filename slugify_ascii check_bracketed_passes checknetloc_ascii
    ("example.com" ++ "/page")
  = sanitize_filename slugify_ascii check_bracketed_passes checknetloc_ascii
      (url_of "https" "example.com" "/page" (Some "q=1") (Some "top")).
Proof.
  apply (sanitize_filename_scheme_optional slugify_ascii check_bracketed_passes
           checknetloc_ascii "https" "example.com" "/page" (Some "q=1") (Some "top"));
    vm_compute; reflexivity.
Defined.

Lemma resolve_without_visible_witness :
  no_visible_no_raise hidden_chain = true /\ resolve hidden_chain = inr (last_located hidden_chain).
Proof.
  split; [reflexivity|].
  apply (resolve_without_visible hidden_chain); reflexivity.
Defined.

Lemma resolve_first_visible_witness :
  no_visible_no_raise [Located 1 false; WaitTimeout] = true /\
  resolve (app [Located 1 false; WaitTimeout] (Located 2 true :: [Located 3 true]))
    = inr (Some 2).
Proof.
  split; [reflexivity|].
  apply (resolve_first_visible [Located 1 false; WaitTimeout] 2 [Located 3 true]); reflexivity.
Defined.

Lemma process_url_success_requires_witness :
  exists r,
    process_url slugify_ascii check_bracketed_passes checknetloc_ascii
                "out" "t" "example.com" ok_env = Returned r /\
    r_status r = Success /\
    exists name,
      sanitize_filename slugify_ascii check_bracketed_passes checknetloc_ascii "example.com"
        = inr name /\
      r_screenshot_path r = Some ("out" ++ "/" ++ name ++ ".png") /\
      r_error r = None /\ found (resolve (e_url_input ok_env)) = true /\
      found (resolve (e_submit ok_env)) = true /\
      found (resolve (e_email_input ok_env)) = true /\
      found (resolve (e_final_submit ok_env)) = true /\ e_capture ok_env = None.
Proof.
  eexists; split; [vm_compute; reflexivity|]; split; [reflexivity|].
  apply (process_url_success_requires slugify_ascii check_bracketed_passes checknetloc_ascii
           "out" "t" "example.com" ok_env); [vm_compute; reflexivity|reflexivity].
Defined.

Lemma process_url_sanitize_error_witness :
  process_url slugify_ascii check_bracketed_passes checknetloc_ascii
              "out" "t" "http://[::1/x" ok_env
  = Returned (with_error (mkResult "http://[::1/x" Failed None None "t")
                         ("Unexpected error: " ++ exn_str invalid_ipv6)).
Proof.
  apply (process_url_sanitize_error slugify_ascii check_bracketed_passes checknetloc_ascii
           "out" "t" "http://[::1/x" ok_env invalid_ipv6); vm_compute; reflexivity.
Defined.

Lemma process_url_popup_ignored_witness :
  process_url slugify_ascii check_bracketed_passes checknetloc_ascii
              "out" "t" "example.com" ok_env
  = process_url slugify_ascii check_bracketed_passes checknetloc_ascii
                "out" "t" "example.com" (with_popup ok_env None).
Proof.
  apply (process_url_popup_ignored slugify_ascii check_bracketed_passes checknetloc_ascii
           "out" "t" "example.com" ok_env (mkExn TimeoutException "no popup"));
    reflexivity.
Defined.

Lemma process_csv_results_in_order_witness :
  let st := snd (process_csv slugify_ascii check_bracketed_passes checknetloc_ascii
                             "out" ok_batch init_state) in
  exists rs,
    st_results_csv st = Some rs /\
    map Returned rs = run_items slugify_ascii check_bracketed_passes checknetloc_ascii
                                "out" ok_batch 0 ["a.com"; "b.com"] /\
    ["a.com"; "b.com"] = map r_url (filter is_success rs) /\
    [] = map r_url (filter (fun r => negb (is_success r)) rs).
Proof.
  apply (process_csv_results_in_order slugify_ascii check_bracketed_passes checknetloc_ascii
           "out" ok_batch init_state _ 1%nat ["a.com"; "b.com"]).
  - reflexivity.
  - discriminate.
  - vm_compute; reflexivity.
Defined.

Lemma process_csv_partitions_urls_witness :
  fst (process_csv slugify_ascii check_bracketed_passes checknetloc_ascii
                   "out" ok_batch init_state) = Returned (["a.com"; "b.com"], []) /\
  Permutation (app ["a.com"; "b.com"] []) ["a.com"; "b.com"] /\
  List.length ["a.com"; "b.com"] + List.length (@nil string) = List.length ["a.com"; "b.com"].
Proof.
  split; [vm_compute; reflexivity|].
  apply (process_csv_partitions_urls slugify_ascii check_bracketed_passes checknetloc_ascii
           "out" ok_batch init_state
           (snd (process_csv slugify_ascii check_bracketed_passes checknetloc_ascii
                             "out" ok_batch init_state)) 1%nat).
  - reflexivity.
  - vm_compute; reflexivity.
Defined.

Lemma create_zip_missing_output_dir_witness :
  create_zip run_tree ["out"; "missing"] None "t"
    = Some ([], ["out"; "seo_audit_results_t.zip"]) /\
  [] = @nil (list string) /\
  ["out"; "seo_audit_results_t.zip"] = zip_target ["out"; "missing"] None "t".
Proof.
  split; [reflexivity|].
  apply (create_zip_missing_output_dir run_tree ["out"; "missing"] None "t").
  - intros es'; discriminate.
  - reflexivity.
Defined.

Lemma create_zip_default_path_outside_witness :
  exists es z,
    create_zip run_tree (app ["out"] ["run"]) None "t" = Some (es, z) /\
    z = app ["out"] [("seo_audit_results_" ++ "t" ++ ".zip")%string] /\
    ~ exists r, z = app (app ["out"] ["run"]) r.
Proof.
  do 2 eexists; split; [reflexivity|].
  eapply (create_zip_default_path_outside run_tree ["out"] "run" "t").
  - reflexivity.
  - reflexivity.
Defined.

Lemma create_zip_archive_path_valid_witness :
  exists es z,
    create_zip run_tree ["out"; "run"] None "t" = Some (es, z) /\
    z <> [] /\
    (exists es', lookup (path_parent z) run_tree = Some (DirN es')) /\
    (forall es', lookup z run_tree <> Some (DirN es')).
Proof.
  do 2 eexists; split; [reflexivity|].
  eapply (create_zip_archive_path_valid run_tree ["out"; "run"] None "t").
  reflexivity.
Defined.
